(** * Exploration-transfer training loop: a shallow embedding

    The development embeds the parts of the actor-learner training code
    (the [e3b] and [RNDxE3B] algorithms and the shared model initialisation)
    that decide the reward fed to the V-trace correction, the per-step
    discount, the learning-rate schedule, checkpoint loading, the start-up
    and shut-down sequence of [train], and the learner threads' loop.

    Modelling conventions.
    - Tensor entries are exact rationals ([Q]); floating-point rounding is
      outside the model.  A tensor is time-major: a list of rows, one row per
      timestep, one entry per batch element.
    - In-place tensor updates ([x *= y]) act on a store of storages; a
      reference is a view (storage, first row), as [tensor[k:]] makes one.
    - Python integers are [Z]; [range n] is [seq 0 (Z.to_nat n)].
    - Neural networks, the environment and the file system are external:
      their results are inputs of the model. *)

From Stdlib Require Import ZArith QArith Qabs Qminmax Lia.
From stdpp Require Import base option list strings gmap.

Local Open Scope Z_scope.

(** ** Tensors with in-place updates *)

Module Tensor.

Definition tensor := list (list Q).
Definition btensor := list (list bool).

(** Storages are addressed by their position in the store. *)
Definition store := list tensor.

(** A view: rows [off ..] of storage [base]. *)
Record ref := Ref { base : nat; off : nat }.

Definition storage (st : store) (b : nat) : tensor := default [] (st !! b).

Definition read (st : store) (r : ref) : tensor := drop (off r) (storage st (base r)).

(** [tensor[k:]]: a view on the same storage, no copy. *)
Definition slice_from (k : nat) (r : ref) : ref :=
  {| base := base r; off := off r + k |}.

(** A fresh storage, as every out-of-place operation returns. *)
Definition alloc (t : tensor) (st : store) : ref * store :=
  ({| base := length st; off := 0 |}, st ++ [t]).

(** Overwrite the rows a view covers; the rows before it are kept. *)
Definition write (r : ref) (t : tensor) (st : store) : store :=
  <[base r := take (off r) (storage st (base r)) ++ t]> st.

Definition map_t (f : Q -> Q) (t : tensor) : tensor := map (map f) t.
Definition zip_t (f : Q -> Q -> Q) (t u : tensor) : tensor :=
  zip_with (zip_with f) t u.

(** [x *= c] for a Python scalar [c]. *)
Definition imul_scalar (x : ref) (c : Q) (st : store) : store :=
  write x (map_t (fun v => v * c)%Q (read st x)) st.

(** [x *= y] for a tensor [y] of the same shape. *)
Definition imul (x y : ref) (st : store) : store :=
  write x (zip_t Qmult (read st x) (read st y)) st.

(** [x + y], out of place. *)
Definition add (x y : ref) (st : store) : ref * store :=
  alloc (zip_t Qplus (read st x) (read st y)) st.

(** [torch.clamp(v, lo, hi)] is [min(max(v, lo), hi)]. *)
Definition clamp_q (v lo hi : Q) : Q :=
  let w := if Qle_bool lo v then v else lo in
  if Qle_bool w hi then w else hi.

Definition clamp (x : ref) (lo hi : Q) (st : store) : ref * store :=
  alloc (map_t (fun v => clamp_q v lo hi) (read st x)) st.

(** [b.float()] *)
Definition b2q (b : bool) : Q := if b then 1%Q else 0%Q.
Definition float (t : btensor) : tensor := map (map b2q) t.

(** Entry at timestep [t], batch element [b]. *)
Definition entry {A} (x : list (list A)) (t b : nat) : option A :=
  match x !! t with
  | Some row => row !! b
  | None => None
  end.

(** [torch.sum] over all entries. *)
Definition sum_t (t : tensor) : Q :=
  foldr (fun row acc => foldr Qplus acc row) 0%Q t.

End Tensor.

(** ** Run options read by the modelled code *)

Record Flags := {
  model : string;
  checkpoint : option string;
  continue_learning : bool;
  disable_checkpoint : bool;
  no_reward : bool;
  intrinsic_reward_coef : Q;
  discounting : Q;
  unroll_length : Z;
  batch_size : Z;
  total_frames : Z;
  num_actors : Z;
  num_buffers : Z;
  num_threads : Z
}.

(** ** The learning step: rewards and discounts handed to V-trace *)

Module Learn.
Import Tensor.

(** The entries of [batch] the modelled statements read.  [get_batch]
    stacks every key into a storage of its own. *)
Record Batch := {
  reward : ref;
  bonus_reward : ref;
  real_done : btensor;
  done : btensor
}.

(** [{key: tensor[1:] for key, tensor in batch.items()}] *)
Definition batch_tail (b : Batch) : Batch :=
  {| reward := slice_from 1 (reward b);
     bonus_reward := slice_from 1 (bonus_reward b);
     real_done := drop 1 (real_done b);
     done := drop 1 (done b) |}.

(** What the step hands to [vtrace.from_logits] and reports in [stats]. *)
Record Outputs := {
  intrinsic_rewards_out : tensor;
  total_rewards : tensor;
  clipped_rewards : tensor;
  discounts : tensor;
  total_episodes : Q
}.

(** Statements shared by both algorithms, from [rewards = batch['reward']]
    to [discounts = ...]; [batch] is already the sliced one. *)
Definition rewards_and_discounts (flags : Flags) (batch : Batch)
    (intrinsic_rewards : ref) (st : store) : Outputs :=
  let rewards := reward batch in
  let '(total, st) :=
    if no_reward flags then (intrinsic_rewards, st)
    else if Qlt_le_dec 0 (intrinsic_reward_coef flags)
         then add rewards intrinsic_rewards st
         else (rewards, st) in
  let '(clipped, st) := clamp total (-1) 1 st in
  let discounts :=
    map_t (fun v => Qabs (1 - v) * discounting flags)%Q (float (real_done batch)) in
  {| intrinsic_rewards_out := read st intrinsic_rewards;
     total_rewards := read st total;
     clipped_rewards := read st clipped;
     discounts := discounts;
     total_episodes := sum_t (float (done batch)) |}.

(** [e3b.learn] *)
Definition learn_e3b (flags : Flags) (batch : Batch) (st : store) : Outputs :=
  let intrinsic_rewards := slice_from 1 (bonus_reward batch) in
  let intrinsic_reward_coef := intrinsic_reward_coef flags in
  let st := imul_scalar intrinsic_rewards intrinsic_reward_coef st in
  let batch := batch_tail batch in
  rewards_and_discounts flags batch intrinsic_rewards st.

(** [RNDxE3B.learn]; [rnd_norm] is the value of
    [torch.norm(predicted_embedding_next - random_embedding_next, dim=2, p=2)]. *)
Definition learn_RNDxE3B (flags : Flags) (batch : Batch) (rnd_norm : tensor)
    (st : store) : Outputs * tensor :=
  let episodic_bonus := slice_from 1 (bonus_reward batch) in
  let intrinsic_rewards := episodic_bonus in
  let '(intrinsic_rewards_rnd, st) := alloc rnd_norm st in
  let st := imul intrinsic_rewards_rnd intrinsic_rewards st in
  let intrinsic_reward_coef := intrinsic_reward_coef flags in
  let st := imul_scalar intrinsic_rewards intrinsic_reward_coef st in
  let batch := batch_tail batch in
  (rewards_and_discounts flags batch intrinsic_rewards st,
   read st intrinsic_rewards_rnd).

(** A batch as [get_batch] returns it: one fresh storage per key. *)
Definition stacked (rewards bonus : tensor) (real_done done : btensor)
    : Batch * store :=
  let '(r, st) := alloc rewards [] in
  let '(b, st) := alloc bonus st in
  ({| reward := r; bonus_reward := b; real_done := real_done; done := done |}, st).

Definition e3b (flags : Flags) (rewards bonus : tensor)
    (real_done done : btensor) : Outputs :=
  let '(batch, st) := stacked rewards bonus real_done done in
  learn_e3b flags batch st.

Definition RNDxE3B (flags : Flags) (rewards bonus : tensor)
    (real_done done : btensor) (rnd_norm : tensor) : Outputs * tensor :=
  let '(batch, st) := stacked rewards bonus real_done done in
  learn_RNDxE3B flags batch rnd_norm st.

(** The reward the specification asks for: extrinsic plus scaled intrinsic,
    clipped to [-1, 1]. *)
Definition spec_reward (coef r i : Q) : Q := clamp_q (r + coef * i) (-1) 1.

End Learn.

(** ** Exceptions and results *)

Inductive exn :=
| NotImplementedError
| KeyError (key : string)
| FileNotFoundError (path : string)
| TypeError
| KeyboardInterrupt.

Inductive result (A : Type) :=
| Ok (a : A)
| Raise (e : exn).
Arguments Ok {A} a.
Arguments Raise {A} e.

#[global] Instance result_ret : MRet result := fun A a => Ok a.
#[global] Instance result_bind : MBind result := fun A B k r =>
  match r with
  | Ok a => k a
  | Raise e => Raise e
  end.

(** ** Model initialisation, checkpoint loading and the learning-rate schedule *)

Module Init.

(** A value stored under a key of a checkpoint file. *)
Inductive value :=
| StateDict (p : nat)
| FlagsDict
| PyNone.

(** The parameters of a module, an optimizer or the scheduler; [0] is the
    state right after construction. *)
Definition params := nat.

Record Models := {
  actor_model : params;
  learner_model : params;
  actor_exploration_model : option params;
  learner_exploration_model : option params;
  state_embedding_model : params;
  forward_dynamics_model : params;
  inverse_dynamics_model : params;
  random_target_network : params;
  predictor_network : params;
  learner_model_optimizer : params;
  state_embedding_optimizer : params;
  inverse_dynamics_optimizer : params;
  forward_dynamics_optimizer : params;
  predictor_optimizer : params;
  scheduler : params
}.

(** [torch.load(path)] on a file system mapping paths to records. *)
Definition torch_load (fs : gmap string (gmap string value)) (path : string)
    : result (gmap string value) :=
  match fs !! path with
  | Some c => Ok c
  | None => Raise (FileNotFoundError path)
  end.

(** [checkpoint[key]] *)
Definition getitem (c : gmap string value) (key : string) : result value :=
  match c !! key with
  | Some v => Ok v
  | None => Raise (KeyError key)
  end.

(** [m.load_state_dict(v)]: the new state of [m]. *)
Definition load_state_dict (v : value) : result params :=
  match v with
  | StateDict p => Ok p
  | FlagsDict | PyNone => Raise TypeError
  end.

(** [if key in checkpoint: m.load_state_dict(checkpoint[key])] *)
Definition load_if_present (c : gmap string value) (key : string) (m : params)
    : result params :=
  match c !! key with
  | Some v => load_state_dict v
  | None => Ok m
  end.

(** Lines 67-83: the exploration models. *)
Definition exploration_models (flags : Flags) (fs : gmap string (gmap string value))
    : result (option params * option params) :=
  match checkpoint flags with
  | Some path =>
      if (0 <? String.length path)%nat then
        if String.eqb (model flags) "vanilla" then Raise NotImplementedError
        else
          c ← torch_load fs path;
          if negb (continue_learning flags) then
            v ← getitem c "actor_model_state_dict";
            p ← load_state_dict v;
            Ok (Some p, Some p)
          else
            v ← getitem c "actor_exploration_model_state_dict";
            p ← load_state_dict v;
            Ok (Some p, Some p)
      else Ok (None, None)
  | None => Ok (None, None)
  end.

(** Lines 149-175: continuing from a checkpoint. *)
Definition continue_from (c : gmap string value) (m : Models) : result Models :=
  actor ← load_if_present c "actor_model_state_dict" (actor_model m);
  let learner :=
    match c !! "actor_model_state_dict" with
    | Some _ => actor
    | None => learner_model m
    end in
  emb ← load_if_present c "state_embedding_model_state_dict" (state_embedding_model m);
  inv ← load_if_present c "inverse_dynamics_model_state_dict" (inverse_dynamics_model m);
  fwd ← load_if_present c "forward_dynamics_model_state_dict" (forward_dynamics_model m);
  rnd ← load_if_present c "random_target_network_state_dict" (random_target_network m);
  prd ← load_if_present c "predictor_network_state_dict" (predictor_network m);
  lopt ← load_if_present c "learner_model_optimizer_state_dict" (learner_model_optimizer m);
  eopt ← load_if_present c "state_embedding_optimizer_state_dict" (state_embedding_optimizer m);
  popt ← load_if_present c "predictor_optimizer_state_dict" (predictor_optimizer m);
  iopt ← load_if_present c "inverse_dynamics_optimizer_state_dict" (inverse_dynamics_optimizer m);
  fopt ← load_if_present c "forward_dynamics_optimizer_state_dict" (forward_dynamics_optimizer m);
  sch ← load_if_present c "scheduler_state_dict" (scheduler m);
  Ok {| actor_model := actor;
        learner_model := learner;
        actor_exploration_model := actor_exploration_model m;
        learner_exploration_model := learner_exploration_model m;
        state_embedding_model := emb;
        forward_dynamics_model := fwd;
        inverse_dynamics_model := inv;
        random_target_network := rnd;
        predictor_network := prd;
        learner_model_optimizer := lopt;
        state_embedding_optimizer := eopt;
        inverse_dynamics_optimizer := iopt;
        forward_dynamics_optimizer := fopt;
        predictor_optimizer := popt;
        scheduler := sch |}.

(** Lines 58-67 and 106-145: every module, optimizer and the scheduler as
    constructed, with the exploration models of lines 67-83. *)
Definition constructed (actor_exploration learner_exploration : option params) : Models :=
  {| actor_model := 0%nat;
     learner_model := 0%nat;
     actor_exploration_model := actor_exploration;
     learner_exploration_model := learner_exploration;
     state_embedding_model := 0%nat;
     forward_dynamics_model := 0%nat;
     inverse_dynamics_model := 0%nat;
     random_target_network := 0%nat;
     predictor_network := 0%nat;
     learner_model_optimizer := 0%nat;
     state_embedding_optimizer := 0%nat;
     inverse_dynamics_optimizer := 0%nat;
     forward_dynamics_optimizer := 0%nat;
     predictor_optimizer := 0%nat;
     scheduler := 0%nat |}.

Definition init_models_and_states (flags : Flags)
    (fs : gmap string (gmap string value)) : result Models :=
  '(actor_exploration, learner_exploration) ← exploration_models flags fs;
  let m := constructed actor_exploration learner_exploration in
  match checkpoint flags with
  | Some path =>
      if continue_learning flags then
        c ← torch_load fs path;
        continue_from c m
      else Ok m
  | None => Ok m
  end.

(** [np.maximum(a, b)] and Python's [min(a, b)]. *)
Definition np_maximum (a b : Q) : Q := if Qle_bool a b then b else a.
Definition py_min (a b : Q) : Q := if Qle_bool a b then a else b.

Definition lr_lambda (flags : Flags) (epoch : Z) : Q :=
  let x := np_maximum (inject_Z (total_frames flags)) (inject_Z 100000000) in
  (1 - py_min (inject_Z (epoch * unroll_length flags * batch_size flags)) x / x)%Q.

End Init.

(** ** The start-up and shut-down sequence of [train] *)

Module Train.
Import Init.

Inductive algo := E3B | RNDXE3B.

(** What [train] does to its surroundings, in order. *)
Inductive event :=
| OpenLogger
| InitModels
| StartActor (i : nat)
| FreePut (v : option nat)
| StartThread (i : nat)
| SaveCheckpoint (c : gmap string value)
| JoinThread (i : nat)
| LogFinished
| JoinActor (i : nat)
| CloseLogger.

(** How a statement ends; [Running] stands for a statement the given
    observations leave unfinished. *)
Inductive completion :=
| Fallthrough
| Returns
| Raises (e : exn)
| Running.

Definition proc := (list event * completion)%type.

Definition emit (es : list event) : proc := (es, Fallthrough).

(** [p] followed by [q]. *)
Definition seq_proc (p q : proc) : proc :=
  match p.2 with
  | Fallthrough => (p.1 ++ q.1, q.2)
  | c => (p.1, c)
  end.

(** [try: body  except KeyboardInterrupt: handler  else: orelse
    finally: finalbody]. *)
Definition try_stmt (body handler orelse finalbody : proc) : proc :=
  let after :=
    match body.2 with
    | Raises KeyboardInterrupt => (body.1 ++ handler.1, handler.2)
    | Fallthrough => (body.1 ++ orelse.1, orelse.2)
    | c => (body.1, c)
    end in
  match after.2 with
  | Running => after
  | c =>
      match finalbody.2 with
      | Fallthrough => (after.1 ++ finalbody.1, c)
      | c' => (after.1 ++ finalbody.1, c')
      end
  end.

(** [range(n)] *)
Definition range (n : Z) : list nat := seq 0 (Z.to_nat n).

(** The record [checkpoint] hands to [torch.save]. *)
Definition saved_record (a : algo) (m : Models) : gmap string value :=
  match a with
  | E3B =>
      list_to_map
        [("actor_model_state_dict", StateDict (actor_model m));
         ("state_embedding_model_state_dict", StateDict (state_embedding_model m));
         ("inverse_dynamics_model_state_dict", StateDict (inverse_dynamics_model m));
         ("learner_model_optimizer_state_dict", StateDict (learner_model_optimizer m));
         ("state_embedding_optimizer_state_dict", StateDict (state_embedding_optimizer m));
         ("inverse_dynamics_optimizer_state_dict", StateDict (inverse_dynamics_optimizer m));
         ("scheduler_state_dict", StateDict (scheduler m));
         ("flags", FlagsDict)]
  | RNDXE3B =>
      list_to_map
        [("actor_model_state_dict", StateDict (actor_model m));
         ("state_embedding_model_state_dict", StateDict (state_embedding_model m));
         ("inverse_dynamics_model_state_dict", StateDict (inverse_dynamics_model m));
         ("random_target_network_state_dict", StateDict (random_target_network m));
         ("predictor_network_state_dict", StateDict (predictor_network m));
         ("actor_exploration_model_state_dict",
          match actor_exploration_model m with
          | Some p => StateDict p
          | None => PyNone
          end);
         ("learner_model_optimizer_state_dict", StateDict (learner_model_optimizer m));
         ("state_embedding_optimizer_state_dict", StateDict (state_embedding_optimizer m));
         ("inverse_dynamics_optimizer_state_dict", StateDict (inverse_dynamics_optimizer m));
         ("predictor_optimizer_state_dict", StateDict (predictor_optimizer m));
         ("scheduler_state_dict", StateDict (scheduler m));
         ("flags", FlagsDict)]
  end.

(** [checkpoint(frames)] *)
Definition checkpoint_proc (a : algo) (flags : Flags) (m : Models) : proc :=
  if disable_checkpoint flags then emit []
  else emit [SaveCheckpoint (saved_record a m)].

(** One pass of the main thread's waiting loop, as the surroundings decide
    it: the value of [frames] when the loop test runs, whether a keyboard
    interrupt arrives during [time.sleep(5)], whether the save interval
    has elapsed, and the models as the learner threads left them. *)
Record tick := {
  frames_seen : Z;
  interrupted : bool;
  save_due : bool;
  models_now : Models
}.

(** [while frames < flags.total_frames: ...] inside the [try]. *)
Fixpoint wait_loop (a : algo) (flags : Flags) (obs : list tick) : proc :=
  match obs with
  | [] => ([], Running)
  | k :: obs' =>
      if frames_seen k <? total_frames flags then
        if interrupted k then ([], Raises KeyboardInterrupt)
        else
          seq_proc
            (if save_due k then checkpoint_proc a flags (models_now k) else emit [])
            (wait_loop a flags obs')
      else emit []
  end.

(** The models at the end of the observations. *)
Definition last_models (m : Models) (obs : list tick) : Models :=
  default m (models_now <$> last obs).

Definition train (a : algo) (flags : Flags)
    (fs : gmap string (gmap string value)) (obs : list tick) : proc :=
  seq_proc (emit [OpenLogger])
    match init_models_and_states flags fs with
    | Raise e => ([], Raises e)
    | Ok m =>
        seq_proc (emit [InitModels])
          (seq_proc (emit (StartActor <$> range (num_actors flags)))
             (seq_proc (emit ((fun i => FreePut (Some i)) <$> range (num_buffers flags)))
                (seq_proc (emit (StartThread <$> range (num_threads flags)))
                   (seq_proc
                      (try_stmt
                         (wait_loop a flags obs)
                         ([], Returns)
                         (emit ((JoinThread <$> range (num_threads flags)) ++ [LogFinished]))
                         (emit (((fun _ => FreePut None) <$> range (num_actors flags))
                                ++ (JoinActor <$> range (num_actors flags)))))
                      (seq_proc (checkpoint_proc a flags (last_models m obs))
                         (emit [CloseLogger]))))))
    end.

(** The values [train] pushes into the free queue, in order. *)
Definition free_puts (tr : list event) : list (option nat) :=
  omap (fun e => match e with FreePut v => Some v | _ => None end) tr.

Definition is_save (e : event) : bool :=
  match e with SaveCheckpoint _ => true | _ => false end.

Definition is_start_actor (e : event) : bool :=
  match e with StartActor _ => true | _ => false end.

End Train.

(** ** The buffer pool: two index queues shared by actors and learners *)

Module Pool.

Inductive actor_state :=
| Waiting
| Holding (i : nat)
| Stopped.

#[global] Instance actor_state_eq_dec : EqDecision actor_state.
Proof. solve_decision. Defined.

Record state := {
  pending : list (option nat);
  free : list (option nat);
  full : list nat;
  actors : list actor_state;
  learners : list (list nat)
}.

(** [free_queue.put(v)] by [train]: the next of the pushes [train] makes
    (the [FreePut] events of its trace, in order). *)
Definition train_put (s : state) : option state :=
  match pending s with
  | v :: rest =>
      Some {| pending := rest; free := free s ++ [v]; full := full s;
              actors := actors s; learners := learners s |}
  | [] => None
  end.

(** Modelled from the spec: [act] of [src/utils.py] is not among the
    sources.  [acquireFree]: an actor takes the head of the free queue, and
    blocks while the queue is empty; a slot index makes it the owner of
    that slot, the sentinel makes it stop. *)
Definition acquire_free (a : nat) (s : state) : option state :=
  match actors s !! a, free s with
  | Some Waiting, v :: rest =>
      Some {| pending := pending s; free := rest; full := full s;
              actors := <[a := match v with Some i => Holding i | None => Stopped end]>
                          (actors s);
              learners := learners s |}
  | _, _ => None
  end.

(** Modelled from the spec: [act] of [src/utils.py] is not among the
    sources.  [publishFull]: the actor hands the slot it owns to the full
    queue. *)
Definition publish_full (a : nat) (s : state) : option state :=
  match actors s !! a with
  | Some (Holding i) =>
      Some {| pending := pending s; free := free s; full := full s ++ [i];
              actors := <[a := Waiting]> (actors s); learners := learners s |}
  | _ => None
  end.

(** Modelled from the spec: [get_batch] of [src/utils.py] is not among the
    sources.  [acquireFull]: a learner takes the head of the full queue,
    and blocks while the queue is empty. *)
Definition acquire_full (l : nat) (s : state) : option state :=
  match learners s !! l, full s with
  | Some held, i :: rest =>
      Some {| pending := pending s; free := free s; full := rest;
              actors := actors s; learners := <[l := held ++ [i]]> (learners s) |}
  | _, _ => None
  end.

(** Modelled from the spec: [get_batch] of [src/utils.py] is not among the
    sources.  [release]: a learner returns a slot it holds to the free
    queue. *)
Definition release (l : nat) (s : state) : option state :=
  match learners s !! l with
  | Some (i :: held) =>
      Some {| pending := pending s; free := free s ++ [Some i]; full := full s;
              actors := actors s; learners := <[l := held]> (learners s) |}
  | _ => None
  end.

Inductive action :=
| TrainPut
| AcquireFree (a : nat)
| PublishFull (a : nat)
| AcquireFull (l : nat)
| Release (l : nat).

Definition step (x : action) (s : state) : option state :=
  match x with
  | TrainPut => train_put s
  | AcquireFree a => acquire_free a s
  | PublishFull a => publish_full a s
  | AcquireFull l => acquire_full l s
  | Release l => release l s
  end.

Fixpoint run (xs : list action) (s : state) : option state :=
  match xs with
  | [] => Some s
  | x :: xs' =>
      match step x s with
      | Some s' => run xs' s'
      | None => None
      end
  end.

(** Both queues empty, every worker idle, [train]'s pushes still to come. *)
Definition init (puts : list (option nat)) (n_actors n_learners : nat) : state :=
  {| pending := puts; free := []; full := [];
     actors := replicate n_actors Waiting;
     learners := replicate n_learners [] |}.

(** The slot indices among queue entries (sentinels dropped). *)
Definition indices (q : list (option nat)) : list nat := omap id q.

Definition sentinels (q : list (option nat)) : nat :=
  length (filter (fun v => v = None) q).

Definition holding (a : actor_state) : list nat :=
  match a with
  | Holding i => [i]
  | _ => []
  end.

(** The slots owned by an actor or by a learner. *)
Definition held (s : state) : list nat :=
  (actors s ≫= holding) ++ concat (learners s).

Definition stopped (s : state) : nat :=
  length (filter (fun a => a = Stopped) (actors s)).

(** Every slot index the pool knows of: in the free queue, in the full queue,
    owned by a worker, or still to be pushed by [train]. *)
Definition slots (s : state) : list nat :=
  indices (free s) ++ full s ++ held s ++ indices (pending s).

(** Every sentinel: in the free queue, taken by an actor that then stopped,
    or still to be pushed by [train]. *)
Definition sentinel_count (s : state) : nat :=
  sentinels (free s) + stopped s + sentinels (pending s).

End Pool.

(** ** The learner threads *)

Module Learner.
Import Train.

Inductive target := Policy | Embedding | Inverse | Predictor.

#[global] Instance target_eq_dec : EqDecision target.
Proof. solve_decision. Defined.

(** The statements of [learn] inside [with lock:], in order. *)
Inductive stmt :=
| ComputeLoss
| SchedulerStep
| ZeroGrad (o : target)
| Backward
| ClipGrad (o : target)
| OptimizerStep (o : target)
| LoadStateDict.

#[global] Instance stmt_eq_dec : EqDecision stmt.
Proof. solve_decision. Defined.

Definition learn_body (a : algo) : list stmt :=
  match a with
  | E3B =>
      [ComputeLoss; SchedulerStep;
       ZeroGrad Policy; ZeroGrad Embedding; ZeroGrad Inverse;
       Backward;
       ClipGrad Policy; ClipGrad Embedding; ClipGrad Inverse;
       OptimizerStep Policy; OptimizerStep Embedding; OptimizerStep Inverse;
       LoadStateDict]
  | RNDXE3B =>
      [ComputeLoss; SchedulerStep;
       ZeroGrad Policy; ZeroGrad Embedding; ZeroGrad Inverse; ZeroGrad Predictor;
       Backward;
       ClipGrad Policy; ClipGrad Embedding; ClipGrad Inverse; ClipGrad Predictor;
       OptimizerStep Policy; OptimizerStep Embedding; OptimizerStep Inverse;
       OptimizerStep Predictor;
       LoadStateDict]
  end.

Inductive ev :=
| EnterLoop
| GetBatch
| Learn (s : stmt)
| Log (frames : Z)
| AddFrames.

#[global] Instance ev_eq_dec : EqDecision ev.
Proof. solve_decision. Defined.

(** Where a thread running [batch_and_learn] stands. *)
Inductive pc :=
| LoopHead
| Fetching
| WaitLearn
| InLearn (k : nat)
| WaitLog
| Logging
| Reading
| Writing (tmp : Z)
| Unlocking
| Exited.

#[global] Instance pc_eq_dec : EqDecision pc.
Proof. solve_decision. Defined.

(** [learn_lock] is the default argument of [learn], [log_lock] the one of
    [batch_and_learn]: each is created once, when its [def] is executed,
    and no call passes another lock, so every thread uses the same two. *)
Record state := {
  pcs : list pc;
  learn_lock : option nat;
  log_lock : option nat;
  frames : Z;
  trace : list (nat * ev)
}.

Definition goto (t : nat) (p : pc) (s : state) : state :=
  {| pcs := <[t := p]> (pcs s); learn_lock := learn_lock s;
     log_lock := log_lock s; frames := frames s; trace := trace s |}.

Definition record (t : nat) (e : ev) (s : state) : state :=
  {| pcs := pcs s; learn_lock := learn_lock s; log_lock := log_lock s;
     frames := frames s; trace := trace s ++ [(t, e)] |}.

Definition set_learn_lock (o : option nat) (s : state) : state :=
  {| pcs := pcs s; learn_lock := o; log_lock := log_lock s;
     frames := frames s; trace := trace s |}.

Definition set_log_lock (o : option nat) (s : state) : state :=
  {| pcs := pcs s; learn_lock := learn_lock s; log_lock := o;
     frames := frames s; trace := trace s |}.

Definition set_frames (f : Z) (s : state) : state :=
  {| pcs := pcs s; learn_lock := learn_lock s; log_lock := log_lock s;
     frames := f; trace := trace s |}.

(** One atomic step of thread [t]; [None] when the thread is blocked on a
    lock, has exited, or does not exist. *)
Definition step (a : algo) (flags : Flags) (t : nat) (s : state) : option state :=
  match pcs s !! t with
  | Some LoopHead =>
      if frames s <? total_frames flags
      then Some (goto t Fetching (record t EnterLoop s))
      else Some (goto t Exited s)
  | Some Fetching => Some (goto t WaitLearn (record t GetBatch s))
  | Some WaitLearn =>
      match learn_lock s with
      | None => Some (goto t (InLearn 0) (set_learn_lock (Some t) s))
      | Some _ => None
      end
  | Some (InLearn k) =>
      match learn_body a !! k with
      | Some st => Some (goto t (InLearn (S k)) (record t (Learn st) s))
      | None => Some (goto t WaitLog (set_learn_lock None s))
      end
  | Some WaitLog =>
      match log_lock s with
      | None => Some (goto t Logging (set_log_lock (Some t) s))
      | Some _ => None
      end
  | Some Logging => Some (goto t Reading (record t (Log (frames s)) s))
  | Some Reading => Some (goto t (Writing (frames s)) s)
  | Some (Writing tmp) =>
      Some (goto t Unlocking
              (record t AddFrames
                 (set_frames (tmp + unroll_length flags * batch_size flags) s)))
  | Some Unlocking => Some (goto t LoopHead (set_log_lock None s))
  | Some Exited => None
  | None => None
  end.

(** A schedule names the thread that tries to move next; a thread that
    cannot move leaves the state as it is. *)
Definition run (a : algo) (flags : Flags) (sched : list nat) (s : state) : state :=
  foldl (fun s t => default s (step a flags t s)) s sched.

(** [frames, stats = 0, {}] and [num_threads] threads about to start. *)
Definition init (flags : Flags) : state :=
  {| pcs := replicate (Z.to_nat (num_threads flags)) LoopHead;
     learn_lock := None; log_lock := None; frames := 0; trace := [] |}.

(** The statements executed inside [learn]'s critical section. *)
Definition critical (tr : list (nat * ev)) : list (nat * stmt) :=
  omap (fun x => match x.2 with Learn st => Some (x.1, st) | _ => None end) tr.

Definition events (e : ev) (tr : list (nat * ev)) : nat :=
  length (filter (fun x => x.2 = e) tr).

(** One call of [learn] by thread [t], start to end. *)
Definition call (a : algo) (t : nat) : list (nat * stmt) :=
  pair t <$> learn_body a.

Definition in_learn (p : pc) : bool :=
  match p with InLearn _ => true | _ => false end.

(** Past the loop test, [frames] not yet increased. *)
Definition before_add (p : pc) : bool :=
  match p with
  | Fetching | WaitLearn | InLearn _ | WaitLog | Logging | Reading | Writing _ => true
  | LoopHead | Unlocking | Exited => false
  end.

(** Inside [batch_and_learn]'s own [with lock:]. *)
Definition in_log (p : pc) : bool :=
  match p with
  | Logging | Reading | Writing _ | Unlocking => true
  | _ => false
  end.

(** The number of threads whose position satisfies [f]. *)
Definition inside (f : pc -> bool) (s : state) : nat :=
  length (filter (fun p => f p = true) (pcs s)).

(** The statements the thread now inside [learn] has executed so far. *)
Definition partial_call (a : algo) (s : state) : list (nat * stmt) :=
  match learn_lock s with
  | Some t =>
      match pcs s !! t with
      | Some (InLearn k) => pair t <$> take k (learn_body a)
      | _ => []
      end
  | None => []
  end.

(** The steps a thread at [p] still takes until its next loop test is
    done. *)
Definition remaining (a : algo) (p : pc) : nat :=
  match p with
  | Exited => 0
  | LoopHead => 1
  | Unlocking => 2
  | Writing _ => 3
  | Reading => 4
  | Logging => 5
  | WaitLog => 6
  | InLearn k => 7 + (length (learn_body a) - k)
  | WaitLearn => 8 + length (learn_body a)
  | Fetching => 9 + length (learn_body a)
  end.

(** An upper bound on the steps all threads together can still take: the
    rest of the passes under way, and a whole pass for every loop entry the
    frame target still allows. *)
Definition work (a : algo) (flags : Flags) (s : state) : Z :=
  Z.of_nat (sum_list_with (remaining a) (pcs s))
  + Z.of_nat (9 + length (learn_body a))
    * (Z.max (total_frames flags) 0 / (unroll_length flags * batch_size flags)
       + Z.of_nat (length (pcs s))
       - Z.of_nat (events EnterLoop (trace s))).

(** What holds in every state the threads can reach. *)
Record invariant (a : algo) (flags : Flags) (s : state) : Prop := {
  inv_threads : length (pcs s) = Z.to_nat (num_threads flags);
  inv_learn_holder :
    forall t k, pcs s !! t = Some (InLearn k) -> learn_lock s = Some t;
  inv_learn_held :
    forall t, learn_lock s = Some t -> exists k, pcs s !! t = Some (InLearn k);
  inv_learn_count :
    inside in_learn s = match learn_lock s with Some _ => 1%nat | None => 0%nat end;
  inv_calls :
    exists calls, critical (trace s) = (calls ≫= call a) ++ partial_call a s;
  inv_log_holder :
    forall t p, pcs s !! t = Some p -> in_log p = true -> log_lock s = Some t;
  inv_log_held :
    forall t, log_lock s = Some t -> exists p, pcs s !! t = Some p /\ in_log p = true;
  inv_tmp :
    forall t tmp, pcs s !! t = Some (Writing tmp) -> tmp = frames s;
  inv_frames :
    frames s = unroll_length flags * batch_size flags
               * Z.of_nat (events AddFrames (trace s));
  inv_enter :
    events EnterLoop (trace s) = (events AddFrames (trace s) + inside before_add s)%nat;
  inv_bound :
    0 <= unroll_length flags * batch_size flags ->
    frames s + unroll_length flags * batch_size flags * Z.of_nat (inside before_add s)
    <= Z.max (total_frames flags) 0
       + unroll_length flags * batch_size flags * Z.of_nat (length (pcs s))
}.

End Learner.


(** ** Sample run options *)

(** Options for worked examples: algorithm [e3b], no checkpoint, one actor,
    one learner thread, two buffers, segments of three steps. *)
Definition sample_flags (no_rew : bool) (coef disc : Q) : Flags :=
  {| model := "e3b";
     checkpoint := None;
     continue_learning := false;
     disable_checkpoint := false;
     no_reward := no_rew;
     intrinsic_reward_coef := coef;
     discounting := disc;
     unroll_length := 3;
     batch_size := 1;
     total_frames := 6;
     num_actors := 1;
     num_buffers := 2;
     num_threads := 1 |}.

(** The same options for algorithm [algo_name], with [--checkpoint path]. *)
Definition checkpoint_flags (algo_name path : string) (continue : bool) : Flags :=
  {| model := algo_name;
     checkpoint := Some path;
     continue_learning := continue;
     disable_checkpoint := false;
     no_reward := false;
     intrinsic_reward_coef := 1#2;
     discounting := 99#100;
     unroll_length := 3;
     batch_size := 1;
     total_frames := 6;
     num_actors := 1;
     num_buffers := 2;
     num_threads := 1 |}.

(** The same options with [threads] learner threads and a frame target. *)
Definition threaded_flags (threads target : Z) : Flags :=
  {| model := "e3b";
     checkpoint := None;
     continue_learning := false;
     disable_checkpoint := false;
     no_reward := false;
     intrinsic_reward_coef := 1#2;
     discounting := 99#100;
     unroll_length := 3;
     batch_size := 1;
     total_frames := target;
     num_actors := 1;
     num_buffers := 2;
     num_threads := threads |}.

(** The sample options with checkpoints switched off. *)
Definition no_checkpoint_flags : Flags :=
  {| model := "e3b";
     checkpoint := None;
     continue_learning := false;
     disable_checkpoint := true;
     no_reward := false;
     intrinsic_reward_coef := 1#2;
     discounting := 99#100;
     unroll_length := 3;
     batch_size := 1;
     total_frames := 6;
     num_actors := 1;
     num_buffers := 2;
     num_threads := 1 |}.

(** One pass of the waiting loop with nothing trained yet. *)
Definition sample_tick (frames_now : Z) (interrupt due : bool) : Train.tick :=
  {| Train.frames_seen := frames_now;
     Train.interrupted := interrupt;
     Train.save_due := due;
     Train.models_now := Init.constructed None None |}.

(** ** The entry point *)

Module Main.
Import Train.





End Main.

(** ** Reading a checkpoint record *)

Module Restore.
Import Init.



End Restore.

(** ** Reading the learner threads' trace *)

Module LearnerTrace.
Import Learner.

(** The values of [frames] handed to [plogger.log], in the order logged. *)
Definition logged (tr : list (nat * ev)) : list Z :=
  omap (fun x => match x.2 with Log f => Some f | _ => None end) tr.

(** Logged, [frames] not yet increased. *)
Definition in_update (p : pc) : bool :=
  match p with
  | Reading | Writing _ => true
  | _ => false
  end.

End LearnerTrace.

(** ** Reading the statistics of a learning step *)

Module Stats.
Import Tensor.

(** The number of set flags in a tensor of booleans. *)
Definition count_true (t : btensor) : nat :=
  length (filter (fun b => b = true) (concat t)).

End Stats.

(** * Properties *)

(** ** Tensors *)

Section tensor_facts.
Import Tensor.

Lemma entry_map_t (f : Q -> Q) (x : tensor) (t b : nat) :
  entry (map_t f x) t b = f <$> entry x t b.
Proof.
  unfold entry, map_t, tensor in *. rewrite list_lookup_fmap.
  destruct (x !! t) as [row|]; simpl; [apply list_lookup_fmap | done].
Qed.

Lemma entry_float (x : btensor) (t b : nat) :
  entry (float x) t b = b2q <$> entry x t b.
Proof.
  unfold entry, float, btensor in *. rewrite list_lookup_fmap.
  destruct (x !! t) as [row|]; simpl; [apply list_lookup_fmap | done].
Qed.

Lemma entry_zip_t (f : Q -> Q -> Q) (x y : tensor) (t b : nat) (u v : Q) :
  entry x t b = Some u -> entry y t b = Some v ->
  entry (zip_t f x y) t b = Some (f u v).
Proof.
  unfold entry, zip_t, tensor in *. intros Hx Hy.
  destruct (x !! t) as [rx|] eqn:Ex; [|done].
  destruct (y !! t) as [ry|] eqn:Ey; [|done].
  rewrite lookup_zip_with, Ex, Ey. simpl.
  rewrite lookup_zip_with, Hx, Hy. done.
Qed.

Lemma clamp_q_compat (x y lo hi : Q) :
  (x == y)%Q -> (clamp_q x lo hi == clamp_q y lo hi)%Q.
Proof.
  intros E. unfold clamp_q.
  destruct (Qle_bool lo x) eqn:Hx, (Qle_bool lo y) eqn:Hy.
  - destruct (Qle_bool x hi) eqn:Hxh, (Qle_bool y hi) eqn:Hyh; try done.
    + apply Qle_bool_iff in Hxh. rewrite E in Hxh.
      apply Qle_bool_iff in Hxh. congruence.
    + apply Qle_bool_iff in Hyh. rewrite <- E in Hyh.
      apply Qle_bool_iff in Hyh. congruence.
  - apply Qle_bool_iff in Hx. rewrite E in Hx.
    apply Qle_bool_iff in Hx. congruence.
  - apply Qle_bool_iff in Hy. rewrite <- E in Hy.
    apply Qle_bool_iff in Hy. congruence.
  - reflexivity.
Qed.

End tensor_facts.

(** ** The learning step *)

Section learn_facts.
Import Tensor Learn.

(** Reading back a view that was just overwritten in place. *)
Lemma drop_take_write (l t : tensor) (k : nat) :
  (k <= length l)%nat -> drop k (take k l ++ t) = t.
Proof.
  intros Hk. rewrite drop_app_length'; [done|].
  rewrite length_take. lia.
Qed.

Lemma scaled_view (f : Q -> Q) (bonus : tensor) :
  drop 1 (take 1 bonus ++ map_t f (drop 1 bonus)) = map_t f (drop 1 bonus).
Proof. destruct bonus; reflexivity. Qed.

(** The pre-clip reward of both algorithms, read off the store. *)
Lemma e3b_total_rewards flags rewards bonus rd dn :
  total_rewards (e3b flags rewards bonus rd dn) =
    if no_reward flags then
      map_t (fun v => v * intrinsic_reward_coef flags)%Q (drop 1 bonus)
    else if Qlt_le_dec 0 (intrinsic_reward_coef flags) then
      zip_t Qplus (drop 1 rewards)
        (map_t (fun v => v * intrinsic_reward_coef flags)%Q (drop 1 bonus))
    else drop 1 rewards.
Proof.
  unfold e3b, stacked, learn_e3b, rewards_and_discounts. simpl.
  destruct (no_reward flags); simpl.
  - unfold read, storage. simpl. apply scaled_view.
  - destruct (Qlt_le_dec 0 (intrinsic_reward_coef flags)); simpl.
    + unfold read, storage. simpl. rewrite scaled_view. done.
    + unfold read, storage. simpl. done.
Qed.

Lemma e3b_clipped_rewards flags rewards bonus rd dn :
  clipped_rewards (e3b flags rewards bonus rd dn) =
    map_t (fun v => clamp_q v (-1) 1) (total_rewards (e3b flags rewards bonus rd dn)).
Proof.
  unfold e3b, stacked, learn_e3b, rewards_and_discounts. simpl.
  destruct (no_reward flags); simpl.
  - unfold read, storage. simpl. done.
  - destruct (Qlt_le_dec 0 (intrinsic_reward_coef flags)); simpl.
    + unfold read, storage. simpl. done.
    + unfold read, storage. simpl. done.
Qed.

Lemma e3b_discounts flags rewards bonus rd dn :
  discounts (e3b flags rewards bonus rd dn) =
    map_t (fun v => Qabs (1 - v) * discounting flags)%Q (float (drop 1 rd)).
Proof.
  unfold e3b, stacked, learn_e3b, rewards_and_discounts. simpl.
  destruct (no_reward flags); simpl; [done|].
  destruct (Qlt_le_dec 0 (intrinsic_reward_coef flags)); done.
Qed.

(** The combined algorithm hands V-trace what [e3b] hands it, whatever the
    distillation error is. *)
Lemma RNDxE3B_outputs flags rewards bonus rd dn rnd :
  (RNDxE3B flags rewards bonus rd dn rnd).1 = e3b flags rewards bonus rd dn.
Proof.
  unfold RNDxE3B, e3b, stacked, learn_RNDxE3B, learn_e3b, rewards_and_discounts.
  simpl.
  destruct (no_reward flags); simpl.
  - unfold read, storage. simpl. done.
  - destruct (Qlt_le_dec 0 (intrinsic_reward_coef flags)); simpl.
    + unfold read, storage. simpl. done.
    + unfold read, storage. simpl. done.
Qed.

Lemma RNDxE3B_product flags rewards bonus rd dn rnd :
  (RNDxE3B flags rewards bonus rd dn rnd).2 = zip_t Qmult rnd (drop 1 bonus).
Proof.
  unfold RNDxE3B, stacked, learn_RNDxE3B. simpl.
  unfold read, storage. simpl. done.
Qed.

End learn_facts.

Section learn_properties.
Import Tensor Learn.
Local Open Scope Q_scope.

(** C1, as stated, fails: with [no_reward] set the extrinsic reward is left
    out of the sum.  Extrinsic reward 1, bonus 0, coefficient 1/2: the step
    hands V-trace 0, the stated sum is 1. *)
Lemma reward_sum_drops_extrinsic_when_no_reward :
  exists c,
    entry (clipped_rewards
             (e3b (sample_flags true (1#2) (99#100))
                  [[0]; [1]] [[0]; [0]] [[false]; [false]] [[false]; [false]])) 0 0
      = Some c
    /\ c == 0
    /\ ~ (c == spec_reward (1#2) 1 0).
Proof.
  eexists. split; [reflexivity|]. split; [reflexivity|].
  vm_compute. discriminate.
Qed.

(** C1 (amended): when [no_reward] is unset and the intrinsic coefficient is
    not negative, at every timestep and batch element the reward both
    algorithms hand to V-trace is the extrinsic reward plus the coefficient
    times the bonus, clamped to [-1, 1].  For extrinsic rewards [0,0,1],
    bonuses [0.2,0.3,0.1] and coefficient 0.5 the pre-clip rewards are
    [0.1,0.15,1.05] and the post-clip rewards [0.1,0.15,1]. *)
Theorem reward_fed_to_vtrace flags rewards bonus rd dn rnd t b r i :
  no_reward flags = false ->
  0 <= intrinsic_reward_coef flags ->
  entry (drop 1 rewards) t b = Some r ->
  entry (drop 1 bonus) t b = Some i ->
  (exists c, entry (clipped_rewards (e3b flags rewards bonus rd dn)) t b = Some c
             /\ c == spec_reward (intrinsic_reward_coef flags) r i)
  /\ (exists c, entry (clipped_rewards (RNDxE3B flags rewards bonus rd dn rnd).1) t b = Some c
                /\ c == spec_reward (intrinsic_reward_coef flags) r i)
  /\ (forall r0 i0 rd' dn',
        let out := e3b (sample_flags false (1#2) (99#100))
                       (r0 :: [[0]; [0]; [1]]) (i0 :: [[1#5]; [3#10]; [1#10]]) rd' dn' in
        total_rewards out = [[1#10]; [3#20]; [21#20]]
        /\ clipped_rewards out = [[1#10]; [3#20]; [1]]).
Proof.
  intros Hno Hcoef Hr Hi.
  assert (He : exists c, entry (clipped_rewards (e3b flags rewards bonus rd dn)) t b = Some c
                         /\ c == spec_reward (intrinsic_reward_coef flags) r i).
  { rewrite e3b_clipped_rewards, entry_map_t, e3b_total_rewards, Hno.
    destruct (Qlt_le_dec 0 (intrinsic_reward_coef flags)) as [Hpos|Hle].
    - erewrite entry_zip_t; [| exact Hr | rewrite entry_map_t, Hi; reflexivity].
      simpl. eexists. split; [reflexivity|].
      unfold spec_reward. apply clamp_q_compat. ring.
    - rewrite Hr. simpl. eexists. split; [reflexivity|].
      unfold spec_reward. apply clamp_q_compat.
      assert (E : intrinsic_reward_coef flags == 0) by (apply Qle_antisym; assumption).
      rewrite E. ring. }
  split; [exact He|]. split.
  - rewrite RNDxE3B_outputs. exact He.
  - intros r0 i0 rd' dn'. split; reflexivity.
Qed.

Lemma reward_fed_to_vtrace_witness :
  (exists c, entry (clipped_rewards
                      (e3b (sample_flags false (1#2) (99#100))
                           [[0]; [1]] [[0]; [1#10]] [[false]; [false]] [[false]; [false]])) 0 0
               = Some c
             /\ c == spec_reward (1#2) 1 (1#10)).
Proof.
  apply (reward_fed_to_vtrace (sample_flags false (1#2) (99#100))
           [[0]; [1]] [[0]; [1#10]] [[false]; [false]] [[false]; [false]] [[1]] 0 0 1 (1#10)).
  - reflexivity.
  - vm_compute; discriminate.
  - reflexivity.
  - reflexivity.
Defined.

(** C2, evaluated where it fails: distillation error 1/2, episodic bonus 1/2,
    coefficient 1, extrinsic reward 0.  The product 1/4 is computed, but the
    reward handed to V-trace is the episodic bonus 1/2; for every input the
    outputs of the step do not depend on the distillation error. *)
Theorem RNDxE3B_reward_ignores_distillation_error :
  (let run := RNDxE3B (sample_flags false 1 (99#100))
                [[0]; [0]] [[0]; [1#2]] [[false]; [false]] [[false]; [false]] [[1#2]] in
   run.2 = [[1#4]]
   /\ total_rewards run.1 = [[1#2]]
   /\ clipped_rewards run.1 = [[1#2]])
  /\ (forall flags rewards bonus rd dn rnd rnd',
        (RNDxE3B flags rewards bonus rd dn rnd).1
        = (RNDxE3B flags rewards bonus rd dn rnd').1).
Proof.
  split.
  - repeat split; reflexivity.
  - intros. rewrite !RNDxE3B_outputs. reflexivity.
Qed.

(** C3, as stated, fails for a discount factor of 0: the discount is then 0
    at a step that did not terminate. *)
Lemma zero_discount_without_termination :
  entry (drop 1 [[false]; [false]]) 0 0 = Some false
  /\ exists g,
       entry (discounts
                (e3b (sample_flags false (1#2) 0)
                     [[0]; [1]] [[0]; [0]] [[false]; [false]] [[false]; [true]])) 0 0
         = Some g
       /\ g == 0.
Proof. split; [reflexivity|]. eexists. split; reflexivity. Qed.

(** C3 (amended): at every timestep and batch element the discount both
    algorithms hand to V-trace is the discount factor times
    (1 - real_done): it is 0 where the episode really terminated, and the
    full factor where [real_done] is unset, whatever [done] says; when the
    discount factor is not 0, it is 0 exactly where the episode really
    terminated. *)
Theorem discount_fed_to_vtrace flags rewards bonus rd dn rnd t b d :
  entry (drop 1 rd) t b = Some d ->
  exists g,
    entry (discounts (e3b flags rewards bonus rd dn)) t b = Some g
    /\ entry (discounts (RNDxE3B flags rewards bonus rd dn rnd).1) t b = Some g
    /\ g == discounting flags * (1 - b2q d)
    /\ (d = true -> g == 0)
    /\ (d = false -> g == discounting flags)
    /\ (~ discounting flags == 0 -> (g == 0 <-> d = true)).
Proof.
  intros Hd.
  exists (Qabs (1 - b2q d) * discounting flags).
  assert (He : entry (discounts (e3b flags rewards bonus rd dn)) t b
               = Some (Qabs (1 - b2q d) * discounting flags)).
  { rewrite e3b_discounts, entry_map_t, entry_float, Hd. reflexivity. }
  split; [exact He|]. split; [rewrite RNDxE3B_outputs; exact He|].
  destruct d; simpl.
  - assert (E : Qabs (1 - 1) * discounting flags == 0) by (vm_compute Qabs; ring).
    split; [rewrite E; ring|].
    split; [intros _; exact E|].
    split; [discriminate|].
    intros _. split; [reflexivity | intros _; exact E].
  - assert (E : Qabs (1 - 0) * discounting flags == discounting flags)
      by (vm_compute Qabs; ring).
    split; [rewrite E; ring|].
    split; [discriminate|].
    split; [intros _; exact E|].
    intros Hnz. split; [|discriminate].
    intros H0. exfalso. apply Hnz. rewrite <- E. exact H0.
Qed.

Lemma discount_fed_to_vtrace_witness :
  exists g,
    entry (discounts
             (e3b (sample_flags false (1#2) (99#100))
                  [[0]; [1]] [[0]; [0]] [[false]; [false]] [[false]; [true]])) 0 0
      = Some g
    /\ g == 99#100.
Proof.
  destruct (discount_fed_to_vtrace (sample_flags false (1#2) (99#100))
              [[0]; [1]] [[0]; [0]] [[false]; [false]] [[false]; [true]] [[1]] 0 0 false
              eq_refl) as (g & Hg & _ & _ & _ & Hfull & _).
  exists g. split; [exact Hg | exact (Hfull eq_refl)].
Defined.

End learn_properties.

(** ** The learning-rate schedule *)

Section schedule_facts.
Import Init.
Local Open Scope Q_scope.

Lemma np_maximum_max (a b : Q) : np_maximum a b == Qmax a b.
Proof.
  unfold np_maximum. destruct (Qle_bool a b) eqn:E.
  - apply Qle_bool_iff in E. symmetry. apply Q.max_r. exact E.
  - symmetry. apply Q.max_l. apply Qlt_le_weak, Qnot_le_lt.
    intros H. apply Qle_bool_iff in H. congruence.
Qed.

Lemma py_min_min (a b : Q) : py_min a b == Qmin a b.
Proof.
  unfold py_min. destruct (Qle_bool a b) eqn:E.
  - apply Qle_bool_iff in E. symmetry. apply Q.min_l. exact E.
  - symmetry. apply Q.min_r. apply Qlt_le_weak, Qnot_le_lt.
    intros H. apply Qle_bool_iff in H. congruence.
Qed.

Lemma horizon_positive (tf : Z) : 0 < np_maximum (inject_Z tf) (inject_Z 100000000).
Proof.
  rewrite np_maximum_max.
  apply Qlt_le_trans with (inject_Z 100000000); [reflexivity | apply Q.le_max_r].
Qed.

Lemma div_le_mono (p q x : Q) : 0 < x -> p <= q -> p / x <= q / x.
Proof.
  intros Hx Hpq. unfold Qdiv. apply Qmult_le_compat_r; [exact Hpq|].
  apply Qinv_le_0_compat, Qlt_le_weak, Hx.
Qed.

End schedule_facts.

Section schedule_properties.
Import Init.
Local Open Scope Q_scope.

(** C10: for sizes that are not negative and every epoch e >= 0, the
    multiplier is 1 - min(e * unroll_length * batch_size, x) / x with
    x = max(total_frames, 1e8); it lies in [0, 1], does not increase with e,
    and is 0 once e * unroll_length * batch_size >= x. *)
Theorem lr_lambda_decays_to_zero flags (e e' : Z) :
  (0 <= unroll_length flags)%Z ->
  (0 <= batch_size flags)%Z ->
  (0 <= e)%Z ->
  (e <= e')%Z ->
  let x := Qmax (inject_Z (total_frames flags)) (inject_Z 100000000) in
  let consumed (k : Z) := inject_Z (k * unroll_length flags * batch_size flags) in
  lr_lambda flags e == 1 - Qmin (consumed e) x / x
  /\ 0 <= lr_lambda flags e
  /\ lr_lambda flags e <= 1
  /\ lr_lambda flags e' <= lr_lambda flags e
  /\ (x <= consumed e -> lr_lambda flags e == 0).
Proof.
  intros Hu Hb He Hee x consumed.
  pose proof (horizon_positive (total_frames flags)) as Hx.
  set (y := np_maximum (inject_Z (total_frames flags)) (inject_Z 100000000)) in *.
  assert (Hxy : y == x) by apply np_maximum_max.
  assert (Hy0 : ~ y == 0) by (intros E; rewrite E in Hx; discriminate).
  assert (Hc : forall k, (0 <= k)%Z -> 0 <= consumed k).
  { intros k Hk. unfold consumed. change 0 with (inject_Z 0). rewrite <- Zle_Qle.
    apply Z.mul_nonneg_nonneg; [apply Z.mul_nonneg_nonneg|]; assumption. }
  assert (Hmono : consumed e <= consumed e').
  { unfold consumed. rewrite <- Zle_Qle.
    apply Z.mul_le_mono_nonneg_r; [assumption|].
    apply Z.mul_le_mono_nonneg_r; assumption. }
  assert (Hlam : forall k, lr_lambda flags k == 1 - Qmin (consumed k) y / y).
  { intros k. unfold lr_lambda. fold y. fold (consumed k).
    rewrite py_min_min. reflexivity. }
  assert (Hlo : forall k, (0 <= k)%Z -> 0 <= Qmin (consumed k) y / y).
  { intros k Hk. apply Qle_shift_div_l; [exact Hx|].
    rewrite Qmult_0_l. apply Q.min_glb; [apply Hc, Hk | apply Qlt_le_weak, Hx]. }
  assert (Hhi : forall k, Qmin (consumed k) y / y <= 1).
  { intros k. apply Qle_shift_div_r; [exact Hx|].
    rewrite Qmult_1_l. apply Q.le_min_r. }
  split; [|split; [|split; [|split]]].
  - rewrite Hlam, Hxy. reflexivity.
  - rewrite Hlam. specialize (Hhi e).
    apply (Qplus_le_r _ _ (Qmin (consumed e) y / y)). ring_simplify. exact Hhi.
  - rewrite Hlam. specialize (Hlo e He).
    apply (Qplus_le_r _ _ (Qmin (consumed e) y / y - 1)). ring_simplify. exact Hlo.
  - rewrite !Hlam.
    assert (Hd : Qmin (consumed e) y / y <= Qmin (consumed e') y / y).
    { apply div_le_mono; [exact Hx|].
      apply Q.min_le_compat_r. exact Hmono. }
    apply (Qplus_le_r _ _ (Qmin (consumed e) y / y + Qmin (consumed e') y / y - 1)).
    ring_simplify. exact Hd.
  - intros Hfull. rewrite Hlam.
    rewrite <- Hxy in Hfull.
    rewrite (Q.min_r _ _ Hfull). field. exact Hy0.
Qed.

Lemma lr_lambda_decays_to_zero_witness :
  0 <= Init.lr_lambda (sample_flags false (1#2) (99#100)) 5
  /\ Init.lr_lambda (sample_flags false (1#2) (99#100)) 7
     <= Init.lr_lambda (sample_flags false (1#2) (99#100)) 5.
Proof.
  destruct (lr_lambda_decays_to_zero (sample_flags false (1#2) (99#100)) 5 7)
    as (_ & H0 & _ & Hmono & _); simpl; try lia.
  split; [exact H0 | exact Hmono].
Defined.

End schedule_properties.

(** ** Model initialisation and checkpoint loading *)

Section init_facts.
Import Init.

Lemma load_if_present_raises c key m e :
  load_if_present c key m = Raise e -> e = TypeError.
Proof.
  unfold load_if_present, load_state_dict.
  destruct (c !! key) as [[p| |]|]; congruence.
Qed.

(** The continue path tests every key before it reads it. *)
Lemma continue_from_no_key_error c m key :
  continue_from c m <> Raise (KeyError key).
Proof.
  unfold continue_from.
  repeat
    match goal with
    | |- context [load_if_present c ?k ?x] =>
        let H := fresh "H" in
        destruct (load_if_present c k x) as [?|?] eqn:H; simpl;
        [| apply load_if_present_raises in H; congruence]
    end.
  discriminate.
Qed.

Lemma vanilla_rejected flags fs path :
  checkpoint flags = Some path -> path <> "" -> model flags = "vanilla" ->
  init_models_and_states flags fs = Raise NotImplementedError.
Proof.
  intros Hc Hp Hm. unfold init_models_and_states, exploration_models.
  rewrite Hc, Hm. destruct path; [done|]. reflexivity.
Qed.

End init_facts.

Section init_properties.
Import Init Train.

(** C7, evaluated where it fails.  Continuing from the record [e3b]'s own
    [checkpoint] writes raises [KeyError]: the exploration path reads
    ["actor_exploration_model_state_dict"] without testing for it.  Without
    [continue_learning] a record lacking ["actor_model_state_dict"] raises
    [KeyError] too, and the record [RNDxE3B] writes with no exploration model
    raises [TypeError].  The continue path itself never raises [KeyError]. *)
Theorem exploration_load_requires_its_key :
  (forall m,
     init_models_and_states (checkpoint_flags "e3b" "model.tar" true)
       {["model.tar" := saved_record E3B m]}
     = Raise (KeyError "actor_exploration_model_state_dict"))
  /\ init_models_and_states (checkpoint_flags "e3b" "model.tar" false)
       {["model.tar" := {["scheduler_state_dict" := StateDict 7]}]}
     = Raise (KeyError "actor_model_state_dict")
  /\ init_models_and_states (checkpoint_flags "RNDxE3B" "model.tar" true)
       {["model.tar" := saved_record RNDXE3B (constructed None None)]}
     = Raise TypeError
  /\ (forall c m key, continue_from c m <> Raise (KeyError key)).
Proof.
  split; [|split; [|split]].
  - intros m. reflexivity.
  - reflexivity.
  - reflexivity.
  - apply continue_from_no_key_error.
Qed.

End init_properties.

(** ** Start-up and shut-down of [train] *)

Section train_facts.
Import Init Train.

Lemma seq_proc_emit es (q : proc) : seq_proc (emit es) q = (es ++ q.1, q.2).
Proof. reflexivity. Qed.

(** The shape of every run whose initialisation succeeds. *)
Lemma train_after_init a flags fs obs m :
  init_models_and_states flags fs = Ok m ->
  train a flags fs obs =
    seq_proc
      (emit ([OpenLogger; InitModels]
             ++ (StartActor <$> range (num_actors flags))
             ++ ((fun i => FreePut (Some i)) <$> range (num_buffers flags))
             ++ (StartThread <$> range (num_threads flags))))
      (seq_proc
         (try_stmt
            (wait_loop a flags obs)
            ([], Returns)
            (emit ((JoinThread <$> range (num_threads flags)) ++ [LogFinished]))
            (emit (((fun _ => FreePut None) <$> range (num_actors flags))
                   ++ (JoinActor <$> range (num_actors flags)))))
         (seq_proc (checkpoint_proc a flags (last_models m obs))
            (emit [CloseLogger]))).
Proof.
  intros Hi. unfold train. rewrite Hi.
  rewrite !seq_proc_emit. simpl. rewrite <- !app_assoc. reflexivity.
Qed.

End train_facts.

Section train_properties.
Import Init Train.
Local Open Scope nat_scope.

(** C6: a non-empty exploration checkpoint with model 'vanilla' makes
    [init_models_and_states] raise [NotImplementedError]; [train] calls it
    first, so the run ends with that error and no actor was started. *)
Theorem vanilla_checkpoint_rejected_before_actors a flags fs obs path :
  checkpoint flags = Some path ->
  path <> "" ->
  model flags = "vanilla" ->
  init_models_and_states flags fs = Raise NotImplementedError
  /\ train a flags fs obs = ([OpenLogger], Raises NotImplementedError)
  /\ filter (fun e => is_start_actor e = true) (train a flags fs obs).1 = [].
Proof.
  intros Hc Hp Hm.
  pose proof (vanilla_rejected flags fs path Hc Hp Hm) as Hi.
  assert (Ht : train a flags fs obs = ([OpenLogger], Raises NotImplementedError)).
  { unfold train. rewrite Hi. reflexivity. }
  split; [exact Hi|]. split; [exact Ht|]. rewrite Ht. reflexivity.
Qed.

Lemma vanilla_checkpoint_rejected_before_actors_witness :
  train E3B (checkpoint_flags "vanilla" "model.tar" false) ∅ []
  = ([OpenLogger], Raises NotImplementedError).
Proof.
  apply (vanilla_checkpoint_rejected_before_actors E3B
           (checkpoint_flags "vanilla" "model.tar" false) ∅ [] "model.tar").
  - reflexivity.
  - discriminate.
  - reflexivity.
Defined.

(** C4, as stated, fails: interrupted during the first wait, with
    checkpoints enabled, [train] pushes the sentinel, joins the actor and
    returns; no checkpoint is written and the logger is not closed. *)
Lemma interrupt_skips_final_checkpoint :
  train E3B (sample_flags false (1#2) (99#100)) ∅ [sample_tick 0 true false]
  = ([OpenLogger; InitModels; StartActor 0; FreePut (Some 0); FreePut (Some 1);
      StartThread 0; FreePut None; JoinActor 0], Returns)
  /\ filter (fun e => is_save e = true)
       (train E3B (sample_flags false (1#2) (99#100)) ∅ [sample_tick 0 true false]).1
     = [].
Proof. split; reflexivity. Qed.

(** C4 (amended): when a keyboard interrupt arrives during the training
    loop's wait, [train] pushes one sentinel per actor, joins the actors and
    returns, and does nothing else after the interrupt: it writes no final
    checkpoint.  When the loop ends because the frame target is reached,
    [train] joins the learner threads, pushes the sentinels, joins the actors
    and then writes the final checkpoint (unless checkpoints are disabled). *)
Theorem shutdown_sequence a flags fs obs m w :
  init_models_and_states flags fs = Ok m ->
  let started :=
    [OpenLogger; InitModels]
    ++ (StartActor <$> range (num_actors flags))
    ++ ((fun i => FreePut (Some i)) <$> range (num_buffers flags))
    ++ (StartThread <$> range (num_threads flags)) in
  let drain :=
    ((fun _ => FreePut None) <$> range (num_actors flags))
    ++ (JoinActor <$> range (num_actors flags)) in
  (wait_loop a flags obs = (w, Raises KeyboardInterrupt) ->
   train a flags fs obs = (started ++ w ++ drain, Returns))
  /\ (wait_loop a flags obs = (w, Fallthrough) ->
      train a flags fs obs =
        (started ++ w
         ++ (JoinThread <$> range (num_threads flags)) ++ [LogFinished]
         ++ drain
         ++ (if disable_checkpoint flags then []
             else [SaveCheckpoint (saved_record a (last_models m obs))])
         ++ [CloseLogger],
         Fallthrough)).
Proof.
  intros Hi started drain. rewrite (train_after_init _ _ _ _ _ Hi).
  subst started drain.
  split; intros Hw; unfold try_stmt; rewrite Hw; simpl; rewrite seq_proc_emit; simpl.
  - rewrite app_nil_r, <- ?app_assoc. reflexivity.
  - unfold checkpoint_proc.
    destruct (disable_checkpoint flags); simpl; rewrite <- ?app_assoc; reflexivity.
Qed.

Lemma shutdown_sequence_witness :
  train E3B (sample_flags false (1#2) (99#100)) ∅
    [sample_tick 0 false true; sample_tick 3 true false]
  = ([OpenLogger; InitModels; StartActor 0; FreePut (Some 0); FreePut (Some 1);
      StartThread 0;
      SaveCheckpoint (saved_record E3B (constructed None None));
      FreePut None; JoinActor 0], Returns).
Proof.
  apply (shutdown_sequence E3B (sample_flags false (1#2) (99#100)) ∅
           [sample_tick 0 false true; sample_tick 3 true false]
           (constructed None None)
           [SaveCheckpoint (saved_record E3B (constructed None None))]);
    reflexivity.
Defined.

End train_properties.

(** ** The buffer pool *)

Section pool_facts.
Import Init Train Pool.
Local Open Scope nat_scope.

Lemma bind_insert {A B} (f : A -> list B) (l : list A) (i : nat) (x y : A) :
  l !! i = Some y -> (<[i:=x]> l ≫= f) ++ f y ≡ₚ (l ≫= f) ++ f x.
Proof.
  revert i. induction l as [|a l IH]; intros i Hi; [done|].
  destruct i as [|i]; simpl in *.
  - injection Hi as ->. solve_Permutation.
  - rewrite <- !app_assoc. f_equiv. apply IH, Hi.
Qed.

Lemma concat_insert {B} (l : list (list B)) (i : nat) (x y : list B) :
  l !! i = Some y -> concat (<[i:=x]> l) ++ y ≡ₚ concat l ++ x.
Proof.
  revert i. induction l as [|a l IH]; intros i Hi; [done|].
  destruct i as [|i]; simpl in *.
  - injection Hi as ->. solve_Permutation.
  - rewrite <- !app_assoc. f_equiv. apply IH, Hi.
Qed.

Lemma filter_insert_length {A} (P : A -> Prop) `{!forall x, Decision (P x)}
    (l : list A) (i : nat) (x y : A) :
  l !! i = Some y ->
  length (filter P (<[i:=x]> l)) + (if decide (P y) then 1 else 0)
  = length (filter P l) + (if decide (P x) then 1 else 0).
Proof.
  revert i. induction l as [|a l IH]; intros i Hi; [done|].
  destruct i as [|i]; simpl in *.
  - injection Hi as ->. rewrite ?filter_cons.
    repeat case_decide; simpl; lia.
  - specialize (IH i Hi). rewrite ?filter_cons.
    repeat case_decide; simpl in *; lia.
Qed.

Lemma indices_app q1 q2 : indices (q1 ++ q2) = indices q1 ++ indices q2.
Proof. apply omap_app. Qed.

Lemma sentinels_app q1 q2 : sentinels (q1 ++ q2) = sentinels q1 + sentinels q2.
Proof. unfold sentinels. rewrite filter_app, length_app. done. Qed.

(** No step creates, loses or duplicates a slot index or a sentinel. *)
Lemma step_preserves x s s' :
  step x s = Some s' ->
  slots s' ≡ₚ slots s /\ sentinel_count s' = sentinel_count s.
Proof.
  destruct s as [pe fr fu ac le]. unfold slots, sentinel_count, held, stopped.
  destruct x as [|a|a|l|l]; simpl.
  - unfold train_put. simpl. destruct pe as [|v rest]; [done|].
    intros [= <-]. simpl. rewrite indices_app, sentinels_app.
    destruct v as [j|]; simpl.
    + split; [solve_Permutation|]. unfold sentinels. rewrite ?filter_cons.
      repeat case_decide; simpl; try done; lia.
    + split; [rewrite app_nil_r; done|]. unfold sentinels. rewrite ?filter_cons.
      repeat case_decide; simpl; try done; lia.
  - unfold acquire_free. simpl.
    destruct (ac !! a) as [[| |]|] eqn:Ha; try done.
    destruct fr as [|v rest]; [done|]. intros [= <-]. simpl.
    pose proof (bind_insert holding ac a
                  (match v with Some i => Holding i | None => Stopped end) _ Ha) as Hb.
    pose proof (filter_insert_length (fun x => x = Stopped) ac a
                  (match v with Some i => Holding i | None => Stopped end) _ Ha) as Hs.
    simpl in Hb. rewrite app_nil_r in Hb.
    destruct v as [j|]; simpl in *.
    + split.
      * rewrite Hb. solve_Permutation.
      * unfold sentinels. rewrite ?filter_cons.
        repeat case_decide; simpl in *; try done; lia.
    + split.
      * rewrite app_nil_r in Hb. rewrite Hb. done.
      * unfold sentinels. rewrite ?filter_cons.
        repeat case_decide; simpl in *; try done; lia.
  - unfold publish_full. simpl.
    destruct (ac !! a) as [[|j|]|] eqn:Ha; try done.
    intros [= <-]. simpl.
    pose proof (bind_insert holding ac a Waiting _ Ha) as Hb.
    pose proof (filter_insert_length (fun x => x = Stopped) ac a Waiting _ Ha) as Hs.
    simpl in Hb. rewrite app_nil_r in Hb.
    split.
    + rewrite <- Hb. solve_Permutation.
    + repeat case_decide; simpl in *; try done; lia.
  - unfold acquire_full. simpl.
    destruct (le !! l) as [h|] eqn:Hl; [|done].
    destruct fu as [|j rest]; [done|]. intros [= <-]. simpl.
    pose proof (concat_insert le l (h ++ [j]) _ Hl) as Hc.
    split; [|done].
    assert (E : concat (<[l:=h ++ [j]]> le) ≡ₚ concat le ++ [j]).
    { apply (inj (.++ h)). rewrite Hc. solve_Permutation. }
    rewrite E. solve_Permutation.
  - unfold release. simpl.
    destruct (le !! l) as [[|j h]|] eqn:Hl; try done.
    intros [= <-]. simpl.
    pose proof (concat_insert le l h _ Hl) as Hc.
    rewrite indices_app, sentinels_app. simpl.
    split.
    + assert (E : concat le ≡ₚ concat (<[l:=h]> le) ++ [j]).
      { apply (inj (.++ h)). rewrite <- app_assoc. simpl.
        rewrite <- Hc. solve_Permutation. }
      rewrite E. solve_Permutation.
    + unfold sentinels. rewrite ?filter_cons.
      repeat case_decide; simpl; try done; lia.
Qed.

Lemma run_preserves xs s s' :
  run xs s = Some s' ->
  slots s' ≡ₚ slots s /\ sentinel_count s' = sentinel_count s.
Proof.
  revert s. induction xs as [|x xs IH]; intros s; simpl.
  - intros [= <-]. done.
  - destruct (step x s) as [s1|] eqn:Hx; [|done]. intros Hr.
    destruct (step_preserves _ _ _ Hx) as [Hp Hc].
    destruct (IH _ Hr) as [Hp' Hc'].
    split; [rewrite Hp', Hp; done | lia].
Qed.

End pool_facts.

Section train_pushes.
Import Init Train Pool.
Local Open Scope nat_scope.

Lemma free_puts_app tr1 tr2 : free_puts (tr1 ++ tr2) = free_puts tr1 ++ free_puts tr2.
Proof. apply omap_app. Qed.

Lemma free_puts_silent (g : nat -> event) (l : list nat) :
  (forall i, match g i with FreePut _ => False | _ => True end) ->
  free_puts (g <$> l) = [].
Proof.
  intros Hg. induction l as [|i l IH]; [done|].
  cbn. specialize (Hg i). destruct (g i); try done.
Qed.

Lemma free_puts_indices (l : list nat) :
  free_puts ((fun i => FreePut (Some i)) <$> l) = Some <$> l.
Proof. induction l as [|i l IH]; [done|]. cbn. f_equal. exact IH. Qed.

Lemma free_puts_sentinels (l : list nat) :
  free_puts ((fun _ => FreePut None) <$> l) = replicate (length l) None.
Proof. induction l as [|i l IH]; [done|]. cbn. f_equal. exact IH. Qed.

Lemma length_range n : length (range n) = Z.to_nat n.
Proof. unfold range. apply length_seq. Qed.

(** The waiting loop pushes nothing, and ends in one of three ways. *)
Lemma wait_loop_shape a flags obs :
  free_puts (wait_loop a flags obs).1 = []
  /\ ((wait_loop a flags obs).2 = Fallthrough
      \/ (wait_loop a flags obs).2 = Raises KeyboardInterrupt
      \/ (wait_loop a flags obs).2 = Running).
Proof.
  induction obs as [|k obs [IH1 IH2]]; simpl; [auto|].
  destruct (frames_seen k <? total_frames flags)%Z; [|auto].
  destruct (interrupted k); [auto|].
  unfold checkpoint_proc.
  destruct (save_due k); [destruct (disable_checkpoint flags)|];
    unfold seq_proc; simpl; auto.
Qed.

(** What [train] pushes into the free queue: every slot index once, in order,
    and then, unless it is still waiting, one sentinel per actor. *)
Lemma train_free_puts a flags fs obs m :
  init_models_and_states flags fs = Ok m ->
  free_puts (train a flags fs obs).1 =
    (Some <$> range (num_buffers flags))
    ++ match (train a flags fs obs).2 with
       | Running => []
       | _ => replicate (Z.to_nat (num_actors flags)) None
       end.
Proof.
  intros Hi. rewrite (train_after_init _ _ _ _ _ Hi).
  destruct (wait_loop_shape a flags obs) as [Hw Hc].
  destruct (wait_loop a flags obs) as [w c]. simpl in Hw, Hc.
  rewrite seq_proc_emit.
  destruct Hc as [-> | [-> | ->]]; unfold try_stmt, checkpoint_proc; simpl;
    [destruct (disable_checkpoint flags); simpl | |];
    rewrite !free_puts_app, free_puts_indices, ?free_puts_sentinels, ?length_range, Hw;
    rewrite ?(free_puts_silent StartActor), ?(free_puts_silent StartThread),
      ?(free_puts_silent JoinThread), ?(free_puts_silent JoinActor) by done;
    simpl; rewrite ?app_nil_r; done.
Qed.

Lemma indices_pushed (l : list nat) (k : nat) :
  indices ((Some <$> l) ++ replicate k None) = l.
Proof.
  rewrite indices_app. unfold indices.
  assert (E : omap id (replicate k (@None nat)) = []) by (induction k; done).
  rewrite E, app_nil_r. induction l as [|i l IH]; [done|]. cbn. f_equal. exact IH.
Qed.

Lemma sentinels_pushed (l : list nat) (k : nat) :
  sentinels ((Some <$> l) ++ replicate k None) = k.
Proof.
  rewrite sentinels_app. unfold sentinels.
  assert (E1 : filter (fun v : option nat => v = None) (Some <$> l) = []).
  { induction l as [|i l IH]; [done|]. simpl. rewrite filter_cons.
    case_decide; [done|]. exact IH. }
  assert (E2 : filter (fun v : option nat => v = None) (replicate k None) = replicate k None).
  { induction k as [|k IH]; [done|]. simpl. rewrite filter_cons.
    case_decide; [|done]. by rewrite IH. }
  rewrite E1, E2, length_replicate. done.
Qed.

Lemma no_sentinel_length (q : list (option nat)) :
  sentinels q = 0 -> length (indices q) = length q.
Proof.
  unfold sentinels, indices. induction q as [|v q IH]; [done|].
  rewrite filter_cons. destruct v as [j|]; simpl.
  - destruct (decide (Some j = None)) as [|_]; [done|]. intros E. f_equal. apply IH, E.
  - destruct (decide (@None nat = None)) as [_|]; [|done]. simpl. discriminate.
Qed.

End train_pushes.

Section pool_properties.
Import Init Train Pool.
Local Open Scope nat_scope.

(** C5, as stated, fails twice: the actors run before [train] has pushed
    every index, so after an actor's first acquire the three terms add up to
    1 in a pool of 2 slots; and once the sentinel is pushed the free-queue
    size counts it, so the terms add up to 3. *)
Lemma queue_sizes_do_not_add_up :
  let puts := free_puts (train E3B (sample_flags false (1#2) (99#100)) ∅
                           [sample_tick 0 true false]).1 in
  Z.to_nat (num_buffers (sample_flags false (1#2) (99#100))) = 2
  /\ (exists s, run [TrainPut; AcquireFree 0] (init puts 1 1) = Some s
                /\ length (free s) + length (full s) + length (held s) = 1)
  /\ (exists s, run [TrainPut; TrainPut; TrainPut] (init puts 1 1) = Some s
                /\ length (free s) + length (full s) + length (held s) = 3).
Proof.
  split; [reflexivity|]. split; eexists; (split; [reflexivity|]); reflexivity.
Qed.

(** C5 (amended): [train] starts with both queues empty and pushes every slot
    index 0..N-1 once, then (when it shuts down) one sentinel per actor, and
    nothing else.  After every sequence of pushes by [train] and buffer
    operations by any number of actors and learners, the slot indices in the
    free queue, the full queue, the hands of actors and learners and the
    pushes still to come are a rearrangement of 0..N-1: every slot has one
    owner.  So the number of slot indices in the free queue (sentinels not
    counted) plus the full-queue size plus the number of held indices is N
    once start-up has pushed every index; before the sentinels are pushed
    this is the free-queue size itself.  Sentinels are only pushed by
    [train], and each is in the queue or has stopped one actor. *)
Theorem pool_conservation a flags fs obs m xs s :
  init_models_and_states flags fs = Ok m ->
  run xs (init (free_puts (train a flags fs obs).1)
               (Z.to_nat (num_actors flags)) (Z.to_nat (num_threads flags)))
    = Some s ->
  let N := Z.to_nat (num_buffers flags) in
  (exists k, (k = 0 \/ k = Z.to_nat (num_actors flags))
             /\ free_puts (train a flags fs obs).1 = (Some <$> seq 0 N) ++ replicate k None
             /\ sentinels (free s) + stopped s + sentinels (pending s) = k)
  /\ indices (free s) ++ full s ++ held s ++ indices (pending s) ≡ₚ seq 0 N
  /\ length (indices (free s)) + length (full s) + length (held s)
     + length (indices (pending s)) = N
  /\ (indices (pending s) = [] ->
      length (indices (free s)) + length (full s) + length (held s) = N)
  /\ (indices (pending s) = [] -> sentinels (free s) = 0 ->
      length (free s) + length (full s) + length (held s) = N).
Proof.
  intros Hi Hrun N.
  pose proof (train_free_puts a flags fs obs m Hi) as Hp.
  set (k := match (train a flags fs obs).2 with
            | Running => 0
            | _ => Z.to_nat (num_actors flags)
            end).
  assert (Hk : free_puts (train a flags fs obs).1 = (Some <$> seq 0 N) ++ replicate k None).
  { rewrite Hp. unfold k, range, N. destruct ((train a flags fs obs).2); done. }
  rewrite Hk in Hrun.
  destruct (run_preserves _ _ _ Hrun) as [Hs Hc].
  unfold slots, sentinel_count in Hs, Hc. simpl in Hs, Hc.
  assert (Hh : held (init ((Some <$> seq 0 N) ++ replicate k None)
                       (Z.to_nat (num_actors flags)) (Z.to_nat (num_threads flags))) = []).
  { unfold held, init. simpl.
    assert (E1 : forall n, replicate n Waiting ≫= holding = []) by (induction n; done).
    assert (E2 : forall n, concat (replicate n (@nil nat)) = []) by (induction n; done).
    by rewrite E1, E2. }
  assert (Hst : stopped (init ((Some <$> seq 0 N) ++ replicate k None)
                       (Z.to_nat (num_actors flags)) (Z.to_nat (num_threads flags))) = 0).
  { unfold stopped, init. simpl.
    assert (E : forall n, filter (fun a => a = Stopped) (replicate n Waiting) = []).
    { induction n as [|n IH]; [done|]. simpl. rewrite filter_cons.
      case_decide; [done | exact IH]. }
    by rewrite E. }
  rewrite Hh, indices_pushed in Hs. simpl in Hs.
  rewrite Hst, sentinels_pushed in Hc. simpl in Hc.
  assert (Hlen : length (indices (free s)) + length (full s) + length (held s)
                 + length (indices (pending s)) = N).
  { pose proof (Permutation_length Hs) as Hl.
    rewrite !length_app, length_seq in Hl. lia. }
  split; [|split; [exact Hs|split; [exact Hlen|split]]].
  - exists k. split; [|split; [exact Hk | exact Hc]].
    unfold k. destruct ((train a flags fs obs).2); auto.
  - intros E. rewrite E in Hlen. simpl in Hlen. lia.
  - intros E E0. rewrite E in Hlen. simpl in Hlen.
    pose proof (no_sentinel_length _ E0). lia.
Qed.

Lemma pool_conservation_witness :
  exists s,
    run [TrainPut; AcquireFree 0; TrainPut; PublishFull 0; AcquireFull 0;
         TrainPut; Release 0; AcquireFree 0; PublishFull 0; AcquireFree 0]
      (init (free_puts (train E3B (sample_flags false (1#2) (99#100)) ∅
                          [sample_tick 0 true false]).1) 1 1)
    = Some s
    /\ length (indices (free s)) + length (full s) + length (held s)
       + length (indices (pending s)) = 2.
Proof.
  destruct (run [TrainPut; AcquireFree 0; TrainPut; PublishFull 0; AcquireFull 0;
                 TrainPut; Release 0; AcquireFree 0; PublishFull 0; AcquireFree 0]
              (init (free_puts (train E3B (sample_flags false (1#2) (99#100)) ∅
                                  [sample_tick 0 true false]).1) 1 1))
    as [s|] eqn:Hrun; [|vm_compute in Hrun; discriminate].
  exists s. split; [reflexivity|].
  exact (proj1 (proj2 (proj2
           (pool_conservation E3B (sample_flags false (1#2) (99#100)) ∅
              [sample_tick 0 true false] (constructed None None) _ s
              eq_refl Hrun)))).
Defined.

End pool_properties.

(** ** The learner threads *)

Section learner_facts.
Import Train Learner.

Lemma events_snoc (e : ev) (tr : list (nat * ev)) (x : nat * ev) :
  events e (tr ++ [x]) = (events e tr + (if decide (x.2 = e) then 1 else 0))%nat.
Proof.
  unfold events. rewrite filter_app, length_app. f_equal.
  rewrite filter_cons. case_decide; done.
Qed.

Lemma critical_snoc (tr : list (nat * ev)) (t : nat) (e : ev) :
  critical (tr ++ [(t, e)]) =
    critical tr ++ match e with Learn st => [(t, st)] | _ => [] end.
Proof. unfold critical. rewrite omap_app. f_equal. destruct e; done. Qed.

Lemma inside_replicate (f : pc -> bool) (n : nat) (p : pc) :
  f p = false -> length (filter (fun q => f q = true) (replicate n p)) = 0%nat.
Proof.
  intros Hf. induction n as [|n IH]; [done|]. simpl. rewrite filter_cons.
  case_decide; [congruence | exact IH].
Qed.

Lemma invariant_init a flags : invariant a flags (init flags).
Proof.
  split; simpl.
  - apply length_replicate.
  - intros t k Hl. apply lookup_replicate in Hl as [? _]. done.
  - done.
  - apply inside_replicate. done.
  - exists []. done.
  - intros t p Hl Hp. apply lookup_replicate in Hl as [-> _]. done.
  - done.
  - intros t tmp Hl. apply lookup_replicate in Hl as [? _]. done.
  - unfold events. simpl. lia.
  - unfold events, inside. simpl. rewrite inside_replicate by done. done.
  - intros Hub. unfold inside. simpl. rewrite inside_replicate by done.
    rewrite length_replicate. nia.
Qed.


Lemma inside_insert (f : pc -> bool) (l : list pc) (t : nat) (p p' : pc) :
  l !! t = Some p ->
  (length (filter (fun q => f q = true) (<[t:=p']> l)) + (if f p then 1 else 0)
   = length (filter (fun q => f q = true) l) + (if f p' then 1 else 0))%nat.
Proof.
  intros Hl.
  pose proof (filter_insert_length (fun q => f q = true) l t p' p Hl) as H.
  simpl in H.
  destruct (f p) eqn:E1, (f p') eqn:E2; repeat case_decide; try congruence; lia.
Qed.

Ltac other_thread t' t H :=
  destruct (decide (t' = t)) as [->|?];
  [rewrite list_lookup_insert_eq in H by (eapply lookup_lt_Some; eassumption)
  |rewrite list_lookup_insert_ne in H by done].

Lemma partial_call_other a s s' t p p' :
  pcs s !! t = Some p -> in_learn p = false ->
  (forall h, learn_lock s = Some h -> exists k, pcs s !! h = Some (InLearn k)) ->
  learn_lock s' = learn_lock s ->
  pcs s' = <[t:=p']> (pcs s) ->
  partial_call a s' = partial_call a s.
Proof.
  intros Hp Hn Hheld Hlock Hpcs. unfold partial_call. rewrite Hlock, Hpcs.
  destruct (learn_lock s) as [h|] eqn:Hl; [|done].
  destruct (Hheld h eq_refl) as [k Hk].
  assert (h <> t) by (intros ->; rewrite Hp in Hk; by simplify_eq).
  by rewrite list_lookup_insert_ne.
Qed.

Ltac step_cases Hs Hp :=
  unfold step in Hs;
  destruct (pcs _ !! _) as [[]|] eqn:Hp; [..|done];
  repeat match type of Hs with
         | context [match ?x with _ => _ end] => destruct x eqn:?
         end;
  simplify_eq; simpl.

Lemma step_invariant a flags t s s' :
  invariant a flags s -> step a flags t s = Some s' -> invariant a flags s'.
Proof.
  intros [Ith Ilh Ild Ilc Ica Igh Igd Itm Ifr Ien Ibd] Hs. split.
  - step_cases Hs Hp; rewrite length_insert; assumption.
  - step_cases Hs Hp; intros t' k' Hl; other_thread t' t Hl; simplify_eq;
      try done; try (pose proof (Ilh _ _ Hl)); try (pose proof (Ilh _ _ Hp));
      congruence.
  - step_cases Hs Hp; intros t' Hl;
      try (destruct (Ild _ Hl) as [k' Hk']);
      (destruct (decide (t' = t)) as [->|?];
       [rewrite list_lookup_insert_eq by (eapply lookup_lt_Some; eassumption)
       |rewrite list_lookup_insert_ne by done]);
      simplify_eq; eauto.
  - step_cases Hs Hp; unfold inside in *; simpl;
      match goal with
      | |- context [<[t:=?p']> (pcs s)] =>
          pose proof (inside_insert in_learn _ t _ p' Hp) as Hc; simpl in Hc
      end;
      try (pose proof (Ilh _ _ Hp)); simplify_eq;
      repeat match goal with
             | H : learn_lock s = _ |- _ => rewrite H in *
             end;
      try (destruct (learn_lock s)); lia.
  - destruct Ica as [calls Hc].
    step_cases Hs Hp; rewrite ?critical_snoc; simpl; rewrite ?app_nil_r;
      try (exists calls;
           erewrite (partial_call_other a s _ t _ _ Hp) by (done || reflexivity);
           exact Hc).
    + exists calls. rewrite Hc. unfold partial_call. simpl.
      rewrite list_lookup_insert_eq by (eapply lookup_lt_Some; eassumption).
      match goal with H : learn_lock s = None |- _ => rewrite H end. done.
    + exists calls. rewrite Hc. unfold partial_call. simpl.
      rewrite (Ilh _ _ Hp), Hp.
      rewrite list_lookup_insert_eq by (eapply lookup_lt_Some; eassumption).
      erewrite take_S_r by eassumption.
      rewrite fmap_app, app_assoc. done.
    + exists (calls ++ [t]). rewrite Hc. unfold partial_call. simpl.
      rewrite (Ilh _ _ Hp), Hp.
      rewrite take_ge by (apply lookup_ge_None; assumption).
      rewrite bind_app. simpl. rewrite !app_nil_r. done.
  - step_cases Hs Hp; intros t' p' Hl Hin; other_thread t' t Hl; simplify_eq;
      simpl in *; try done;
      try (pose proof (Igh _ _ Hl Hin)); try (pose proof (Igh _ _ Hp eq_refl));
      congruence.
  - step_cases Hs Hp; intros t' Hl;
      try (destruct (Igd _ Hl) as (q & Hq & Hin));
      (destruct (decide (t' = t)) as [->|?];
       [rewrite list_lookup_insert_eq by (eapply lookup_lt_Some; eassumption)
       |rewrite list_lookup_insert_ne by done]);
      simplify_eq; simpl in *; eauto.
  - step_cases Hs Hp; intros t' tmp' Hl; other_thread t' t Hl; simplify_eq;
      try done; try (exact (Itm _ _ Hl)).
    pose proof (Igh _ _ Hl eq_refl). pose proof (Igh _ _ Hp eq_refl). congruence.
  - step_cases Hs Hp; rewrite ?events_snoc; simpl; try (rewrite Ifr; lia).
    rewrite (Itm _ _ Hp), Ifr. repeat case_decide; try done; lia.
  - step_cases Hs Hp; rewrite ?events_snoc; unfold inside in *; simpl;
      match goal with
      | |- context [<[t:=?p']> (pcs s)] =>
          pose proof (inside_insert before_add _ t _ p' Hp) as Hc; simpl in Hc
      end;
      repeat case_decide; try done; lia.
  - intros Hub. specialize (Ibd Hub).
    step_cases Hs Hp; unfold inside in *; simpl; rewrite length_insert;
      match goal with
      | |- context [<[t:=?p']> (pcs s)] =>
          pose proof (inside_insert before_add _ t _ p' Hp) as Hc; simpl in Hc;
          pose proof (length_filter (fun q => before_add q = true) (<[t:=p']> (pcs s)))
            as Hle;
          rewrite length_insert in Hle
      end;
      try (rewrite (Itm _ _ Hp));
      try match goal with H : (_ <? _) = true |- _ => apply Z.ltb_lt in H end;
      nia.
Qed.

Lemma run_invariant_from a flags sched s :
  invariant a flags s -> invariant a flags (run a flags sched s).
Proof.
  revert s. induction sched as [|t sched IH]; intros s I; [exact I|].
  simpl. apply IH. destruct (step a flags t s) as [s'|] eqn:Hs; simpl; [|exact I].
  eapply step_invariant; eassumption.
Qed.

Lemma run_invariant a flags sched :
  invariant a flags (run a flags sched (init flags)).
Proof. apply run_invariant_from, invariant_init. Qed.

Lemma optimizer_step_before_publication a :
  exists i j, (i < j)%nat
    /\ learn_body a !! i = Some (OptimizerStep Policy)
    /\ learn_body a !! j = Some LoadStateDict
    /\ S j = length (learn_body a).
Proof.
  destruct a; [exists 9%nat, 12%nat | exists 11%nat, 15%nat];
    (split; [lia | repeat split]).
Qed.

Lemma remaining_insert a (l : list pc) (t : nat) (p p' : pc) :
  l !! t = Some p ->
  (sum_list_with (remaining a) (<[t:=p']> l) + remaining a p
   = sum_list_with (remaining a) l + remaining a p')%nat.
Proof.
  revert t. induction l as [|q l IH]; intros t Hl; [done|].
  destruct t as [|t]; simpl in *.
  - injection Hl as ->. lia.
  - specialize (IH t Hl). lia.
Qed.

(** The loop entries so far stay within what the frame target allows. *)
Lemma entries_bounded a flags s :
  invariant a flags s ->
  1 <= unroll_length flags * batch_size flags ->
  Z.of_nat (events EnterLoop (trace s))
  <= Z.max (total_frames flags) 0 / (unroll_length flags * batch_size flags)
     + Z.of_nat (length (pcs s)).
Proof.
  intros [_ _ _ _ _ _ _ _ Ifr Ien Ibd] Hub.
  specialize (Ibd ltac:(lia)). rewrite Ifr in Ibd.
  set (ub := unroll_length flags * batch_size flags) in *.
  rewrite Ien, Nat2Z.inj_add.
  rewrite <- (Z.div_add _ _ ub) by lia.
  apply Z.div_le_lower_bound; [lia|]. nia.
Qed.

(** Every step uses up some of the remaining work. *)
Lemma step_decreases a flags t s s' :
  step a flags t s = Some s' ->
  work a flags s' < work a flags s.
Proof.
  intros Hs. unfold work.
  step_cases Hs Hp; rewrite ?events_snoc, ?length_insert; simpl;
    match goal with
    | |- context [<[t:=?p']> (pcs s)] =>
        pose proof (remaining_insert a _ t _ p' Hp) as Hr; simpl in Hr
    end;
    try match goal with
        | H : learn_body a !! _ = Some _ |- _ => apply lookup_lt_Some in H
        | H : learn_body a !! _ = None |- _ => apply lookup_ge_None in H
        end;
    repeat case_decide; try done; lia.
Qed.

Lemma work_nonneg a flags s :
  invariant a flags s ->
  1 <= unroll_length flags * batch_size flags ->
  0 <= work a flags s.
Proof.
  intros I Hub. pose proof (entries_bounded a flags s I Hub). unfold work. nia.
Qed.

(** Unless every thread has exited, some thread can move: the holder of a
    lock is never blocked, and with both locks free nobody is. *)
Lemma some_thread_moves a flags s :
  invariant a flags s ->
  ~ Forall (fun p => p = Exited) (pcs s) ->
  exists t s', step a flags t s = Some s'.
Proof.
  intros [_ _ Ild _ _ _ Igd _ _ _ _] Hne.
  destruct (learn_lock s) as [h|] eqn:Hl.
  { destruct (Ild h eq_refl) as [k Hk]. exists h. unfold step. rewrite Hk.
    destruct (learn_body a !! k); eauto. }
  destruct (log_lock s) as [g|] eqn:Hg.
  { destruct (Igd g eq_refl) as (p & Hp & Hin). exists g. unfold step. rewrite Hp.
    destruct p; simpl in Hin; try done; eauto. }
  apply not_Forall_Exists in Hne; [|intros p; apply _].
  apply Exists_exists in Hne as (p & Hin & Hp).
  apply list_elem_of_lookup in Hin as [t Ht].
  exists t. unfold step. rewrite Ht, Hl, Hg.
  destruct p; simpl in *; try (by eauto); try congruence.
  - destruct (frames s <? total_frames flags); eauto.
  - destruct (learn_body a !! k); eauto.
Qed.

(** From every reachable state the threads can run until all have exited. *)
Lemma all_threads_exit a flags s :
  invariant a flags s ->
  1 <= unroll_length flags * batch_size flags ->
  exists sched, Forall (fun p => p = Exited) (pcs (run a flags sched s)).
Proof.
  intros I Hub.
  remember (Z.to_nat (work a flags s)) as n eqn:Hn.
  revert s I Hn. induction n as [n IH] using lt_wf_ind. intros s I Hn.
  destruct (decide (Forall (fun p => p = Exited) (pcs s))) as [Hall|Hne].
  { exists []. exact Hall. }
  destruct (some_thread_moves a flags s I Hne) as (t & s' & Hs).
  pose proof (step_decreases a flags t s s' Hs) as Hd.
  pose proof (step_invariant a flags t s s' I Hs) as I'.
  pose proof (work_nonneg a flags s' I' Hub) as H0.
  destruct (IH (Z.to_nat (work a flags s')) ltac:(lia) s' I' eq_refl) as [sched Hsched].
  exists (t :: sched). simpl. rewrite Hs. exact Hsched.
Qed.

Lemma run_app a flags sched sched' s :
  run a flags (sched ++ sched') s = run a flags sched' (run a flags sched s).
Proof. unfold run. apply foldl_app. Qed.

(** A thread leaves the loop only at the loop test, with the target reached. *)
Lemma exit_only_at_test a flags t s s' :
  step a flags t s = Some s' ->
  pcs s' !! t = Some Exited ->
  pcs s !! t = Some LoopHead /\ total_frames flags <= frames s.
Proof.
  intros Hs. step_cases Hs Hp;
    rewrite list_lookup_insert_eq by (eapply lookup_lt_Some; eassumption);
    intros He; simplify_eq.
  split; [done|]. by apply Z.ltb_ge.
Qed.

End learner_facts.

Section learner_properties.
Import Train Learner.

(** C8: every call of [learn] runs under the one lock that is [learn]'s
    default argument.  In every state the learner threads can reach, at most
    one thread is inside the locked block and it holds the lock; the
    statements executed inside the block, in the order they happened, are
    whole calls of [learn], each by one thread from its first statement to
    the publication, followed by the started part of the call of the thread
    now inside; and within a call the optimizer step comes before the
    publication. *)
Theorem learn_calls_serialized a flags sched :
  let s := run a flags sched (init flags) in
  (inside in_learn s <= 1)%nat
  /\ (forall t k, pcs s !! t = Some (InLearn k) -> learn_lock s = Some t)
  /\ (exists calls t k,
         critical (trace s) = (calls ≫= call a) ++ take k (call a t))
  /\ (exists i j, (i < j)%nat
         /\ learn_body a !! i = Some (OptimizerStep Policy)
         /\ learn_body a !! j = Some LoadStateDict
         /\ S j = length (learn_body a)).
Proof.
  intros s. destruct (run_invariant a flags sched) as [_ Ilh _ Ilc Ica _ _ _ _ _ _].
  fold s in Ilh, Ilc, Ica.
  split; [rewrite Ilc; destruct (learn_lock s); lia|].
  split; [exact Ilh|].
  split; [|apply optimizer_step_before_publication].
  destruct Ica as [calls Hc]. exists calls.
  unfold partial_call in Hc.
  destruct (learn_lock s) as [h|].
  - destruct (pcs s !! h) as [[]|].
    all: try (exists 0%nat, 0%nat; rewrite Hc; reflexivity).
    exists h, k. rewrite Hc. unfold call. rewrite fmap_take. reflexivity.
  - exists 0%nat, 0%nat. rewrite Hc. reflexivity.
Qed.

Lemma learn_calls_serialized_witness :
  learn_lock (run E3B (threaded_flags 2 6)
                [1; 1; 1; 0; 0; 0; 1; 1; 1]%nat (init (threaded_flags 2 6)))
  = Some 1%nat.
Proof.
  apply (proj1 (proj2 (learn_calls_serialized E3B (threaded_flags 2 6)
                         [1; 1; 1; 0; 0; 0; 1; 1; 1]%nat)) 1%nat 3%nat).
  reflexivity.
Defined.

(** C9: a learner thread leaves its loop at the loop test once the shared
    frame counter has reached the target, and only there, so after finishing
    the batch it is working on; every completed learning step adds exactly
    unroll_length * batch_size to the counter, which is therefore always that
    many times the number of completed steps; and for
    unroll_length * batch_size >= 1 the threads enter the loop body at most
    max(total_frames, 0) / (unroll_length * batch_size) + num_threads times
    in all, and from every reachable state they can run on until every one
    of them has exited. *)
Theorem learner_loop_terminates a flags sched :
  1 <= unroll_length flags * batch_size flags ->
  let per_step := unroll_length flags * batch_size flags in
  let s := run a flags sched (init flags) in
  frames s = per_step * Z.of_nat (events AddFrames (trace s))
  /\ (forall t tmp, pcs s !! t = Some (Writing tmp) ->
        exists s', step a flags t s = Some s'
                   /\ frames s' = frames s + per_step
                   /\ events AddFrames (trace s') = S (events AddFrames (trace s)))
  /\ (forall t, pcs s !! t = Some LoopHead ->
        step a flags t s =
          Some (if frames s <? total_frames flags
                then goto t Fetching (record t EnterLoop s)
                else goto t Exited s))
  /\ (forall t s', step a flags t s = Some s' -> pcs s' !! t = Some Exited ->
        pcs s !! t = Some LoopHead /\ total_frames flags <= frames s)
  /\ Z.of_nat (events EnterLoop (trace s))
     <= Z.max (total_frames flags) 0 / per_step + Z.max (num_threads flags) 0
  /\ (events AddFrames (trace s) <= events EnterLoop (trace s))%nat
  /\ (exists sched',
        Forall (fun p => p = Exited) (pcs (run a flags (sched ++ sched') (init flags)))).
Proof.
  intros Hub per_step s.
  pose proof (run_invariant a flags sched) as I. fold s in I.
  pose proof (entries_bounded a flags s I Hub) as Hb.
  destruct (all_threads_exit a flags s I Hub) as [sched' Hex].
  destruct I as [Ith _ _ _ _ _ _ Itm Ifr Ien _].
  split; [exact Ifr|]. split; [|split; [|split; [|split; [|split]]]].
  - intros t tmp Ht. unfold step. rewrite Ht. eexists. split; [reflexivity|].
    simpl. rewrite (Itm _ _ Ht), events_snoc. simpl. split; [done|]. lia.
  - intros t Ht. unfold step. rewrite Ht.
    destruct (frames s <? total_frames flags); reflexivity.
  - intros t s' Hs He. exact (exit_only_at_test a flags t s s' Hs He).
  - rewrite Ith in Hb. fold per_step in Hb. lia.
  - rewrite Ien. lia.
  - exists sched'. rewrite run_app. exact Hex.
Qed.

Lemma learner_loop_terminates_witness :
  frames (run E3B (threaded_flags 1 6) (replicate 50 0%nat) (init (threaded_flags 1 6)))
  = 3 * Z.of_nat (events AddFrames
                    (trace (run E3B (threaded_flags 1 6) (replicate 50 0%nat)
                              (init (threaded_flags 1 6)))))
  /\ pcs (run E3B (threaded_flags 1 6) (replicate 50 0%nat) (init (threaded_flags 1 6)))
     = [Exited].
Proof.
  split; [|reflexivity].
  apply (learner_loop_terminates E3B (threaded_flags 1 6) (replicate 50 0%nat)).
  simpl. lia.
Defined.

End learner_properties.

(** ** More on the learning step *)

Section reward_range.
Import Tensor Learn Stats.
Local Open Scope Q_scope.

Lemma clamp_q_range (v lo hi : Q) :
  lo <= hi -> lo <= clamp_q v lo hi /\ clamp_q v lo hi <= hi.
Proof.
  intros Hlh. unfold clamp_q.
  destruct (Qle_bool lo v) eqn:E1.
  - apply Qle_bool_iff in E1. destruct (Qle_bool v hi) eqn:E2.
    + apply Qle_bool_iff in E2. split; assumption.
    + split; [assumption | apply Qle_refl].
  - destruct (Qle_bool lo hi) eqn:E2.
    + split; [apply Qle_refl | assumption].
    + apply Qle_bool_iff in Hlh. congruence.
Qed.

Lemma clamp_q_inside (v lo hi : Q) :
  lo <= v -> v <= hi -> clamp_q v lo hi = v.
Proof.
  intros H1 H2. unfold clamp_q.
  apply Qle_bool_iff in H1. rewrite H1.
  apply Qle_bool_iff in H2. rewrite H2. reflexivity.
Qed.

(** Whatever the options and the batch, every reward both algorithms hand to
    V-trace lies in [-1, 1], and a pre-clip reward already in that range is
    handed on unchanged. *)
Theorem clipped_rewards_in_range flags rewards bonus rd dn rnd t b c :
  entry (clipped_rewards (e3b flags rewards bonus rd dn)) t b = Some c ->
  (-1 <= c /\ c <= 1)
  /\ entry (clipped_rewards (RNDxE3B flags rewards bonus rd dn rnd).1) t b = Some c
  /\ exists v, entry (total_rewards (e3b flags rewards bonus rd dn)) t b = Some v
               /\ c = clamp_q v (-1) 1
               /\ (-1 <= v -> v <= 1 -> c = v).
Proof.
  intros Hc. rewrite RNDxE3B_outputs.
  rewrite e3b_clipped_rewards, entry_map_t in Hc.
  destruct (entry (total_rewards (e3b flags rewards bonus rd dn)) t b) as [v|] eqn:Hv;
    [|discriminate].
  simpl in Hc. injection Hc as <-.
  split; [apply clamp_q_range; discriminate|].
  split; [rewrite e3b_clipped_rewards, entry_map_t, Hv; reflexivity|].
  exists v. split; [reflexivity|]. split; [reflexivity|].
  intros H1 H2. apply clamp_q_inside; assumption.
Qed.

Lemma clipped_rewards_in_range_witness :
  exists c,
    entry (clipped_rewards
             (e3b (sample_flags false (1#2) (99#100))
                  [[0]; [5]] [[0]; [4]] [[false]; [false]] [[false]; [false]])) 0 0
      = Some c
    /\ -1 <= c /\ c <= 1.
Proof.
  eexists. split; [reflexivity|].
  apply (clipped_rewards_in_range (sample_flags false (1#2) (99#100))
           [[0]; [5]] [[0]; [4]] [[false]; [false]] [[false]; [false]] [[1]] 0 0).
  reflexivity.
Defined.

(** With [no_reward] set the reward handed to V-trace is the clamped scaled
    bonus and does not depend on the extrinsic reward; with [no_reward]
    unset and a coefficient that is not positive it is the clamped extrinsic
    reward and does not depend on the bonus. *)
Theorem reward_branches flags rewards rewards' bonus bonus' rd dn :
  (no_reward flags = true ->
     clipped_rewards (e3b flags rewards bonus rd dn)
     = map_t (fun i => clamp_q (i * intrinsic_reward_coef flags) (-1) 1) (drop 1 bonus)
     /\ clipped_rewards (e3b flags rewards' bonus rd dn)
        = clipped_rewards (e3b flags rewards bonus rd dn))
  /\ (no_reward flags = false -> intrinsic_reward_coef flags <= 0 ->
        clipped_rewards (e3b flags rewards bonus rd dn)
        = map_t (fun r => clamp_q r (-1) 1) (drop 1 rewards)
        /\ clipped_rewards (e3b flags rewards bonus' rd dn)
           = clipped_rewards (e3b flags rewards bonus rd dn)).
Proof.
  split.
  - intros Hno. rewrite !e3b_clipped_rewards, !e3b_total_rewards, Hno.
    split; [|reflexivity].
    unfold map_t. rewrite map_map. apply map_ext. intros row.
    rewrite map_map. reflexivity.
  - intros Hno Hle. rewrite !e3b_clipped_rewards, !e3b_total_rewards, Hno.
    destruct (Qlt_le_dec 0 (intrinsic_reward_coef flags)) as [Hpos|_].
    + exfalso. apply (Qlt_irrefl 0). eapply Qlt_le_trans; eassumption.
    + split; reflexivity.
Qed.

Lemma reward_branches_witness :
  clipped_rewards (e3b (sample_flags true (1#2) (99#100))
                     [[0]; [1]] [[0]; [1]] [[false]; [false]] [[false]; [false]])
  = clipped_rewards (e3b (sample_flags true (1#2) (99#100))
                       [[0]; [-1]] [[0]; [1]] [[false]; [false]] [[false]; [false]]).
Proof.
  apply (proj1 (reward_branches (sample_flags true (1#2) (99#100))
                  [[0]; [-1]] [[0]; [1]] [[0]; [1]] [[0]; [1]]
                  [[false]; [false]] [[false]; [false]])).
  reflexivity.
Defined.

End reward_range.

Section reported_bonus.
Import Tensor Learn.
Local Open Scope Q_scope.

(** The bonus is scaled in place, so the intrinsic reward a learning step
    reports is the coefficient times the bonus on every branch, also where
    the reward handed to V-trace leaves the bonus out.  In [RNDxE3B] the
    product with the distillation error is taken before that scaling, from
    the unscaled bonus, into a tensor of its own: the reported intrinsic
    reward is the same as in [e3b]. *)
Theorem reported_intrinsic_rewards flags rewards bonus rd dn rnd :
  intrinsic_rewards_out (e3b flags rewards bonus rd dn)
  = map_t (fun v => v * intrinsic_reward_coef flags) (drop 1 bonus)
  /\ intrinsic_rewards_out (RNDxE3B flags rewards bonus rd dn rnd).1
     = map_t (fun v => v * intrinsic_reward_coef flags) (drop 1 bonus)
  /\ (RNDxE3B flags rewards bonus rd dn rnd).2 = zip_t Qmult rnd (drop 1 bonus).
Proof.
  assert (He : intrinsic_rewards_out (e3b flags rewards bonus rd dn)
               = map_t (fun v => v * intrinsic_reward_coef flags) (drop 1 bonus)).
  { unfold e3b, stacked, learn_e3b, rewards_and_discounts. simpl.
    destruct (no_reward flags); simpl.
    - unfold read, storage. simpl. apply scaled_view.
    - destruct (Qlt_le_dec 0 (intrinsic_reward_coef flags)); simpl;
        unfold read, storage; simpl; apply scaled_view. }
  split; [exact He|]. split.
  - rewrite RNDxE3B_outputs. exact He.
  - apply RNDxE3B_product.
Qed.

End reported_bonus.

Section episode_count.
Import Tensor Learn Stats.
Local Open Scope Q_scope.

Lemma sum_row_count (row : list bool) (acc : Q) :
  foldr Qplus acc (map b2q row)
  == acc + inject_Z (Z.of_nat (length (filter (fun b => b = true) row))).
Proof.
  induction row as [|x row IH]; simpl.
  - ring.
  - rewrite IH, filter_cons. destruct x; simpl.
    + rewrite Nat2Z.inj_succ, <- Z.add_1_l, inject_Z_plus. ring.
    + ring.
Qed.

Lemma sum_t_count (t : btensor) :
  sum_t (float t) == inject_Z (Z.of_nat (count_true t)).
Proof.
  unfold sum_t, float, count_true.
  induction t as [|row t IH]; simpl; [reflexivity|].
  rewrite sum_row_count, IH, filter_app, length_app, Nat2Z.inj_add, inject_Z_plus.
  ring.
Qed.

(** The episode count a learning step reports is the number of [done] flags
    set in the rows after the first row of the batch; the first row is not
    counted. *)
Theorem total_episodes_counts_done flags rewards bonus rd dn row0 :
  total_episodes (e3b flags rewards bonus rd (row0 :: dn))
  == inject_Z (Z.of_nat (count_true dn)).
Proof.
  assert (E : total_episodes (e3b flags rewards bonus rd (row0 :: dn))
              = sum_t (float dn)).
  { unfold e3b, stacked, learn_e3b, rewards_and_discounts. simpl.
    destruct (no_reward flags); simpl; [reflexivity|].
    destruct (Qlt_le_dec 0 (intrinsic_reward_coef flags)); reflexivity. }
  rewrite E. apply sum_t_count.
Qed.

End episode_count.

Section schedule_horizon.
Import Init.
Local Open Scope Q_scope.



End schedule_horizon.

(** ** More on checkpoint loading *)

Section restore_facts.
Import Init Train Restore.


(** Continuing never touches the exploration models. *)
Lemma continue_from_keeps_exploration c m m' :
  continue_from c m = Ok m' ->
  actor_exploration_model m' = actor_exploration_model m
  /\ learner_exploration_model m' = learner_exploration_model m.
Proof.
  unfold continue_from.
  repeat
    match goal with
    | |- context [load_if_present c ?k ?x] =>
        destruct (load_if_present c k x) as [?|?]; simpl; [|discriminate]
    end.
  intros [= <-]. split; reflexivity.
Qed.

Lemma not_vanilla (name : string) : name <> "vanilla" -> String.eqb name "vanilla" = false.
Proof. intros H. by apply String.eqb_neq. Qed.

Lemma nonempty_path (path : string) : path <> "" -> (0 <? String.length path)%nat = true.
Proof. destruct path; [done|]. reflexivity. Qed.

End restore_facts.

Section restore_properties.
Import Init Train Restore.



(** Transfer: with a non-empty checkpoint, a model other than 'vanilla' and
    [continue_learning] unset, the stored actor model becomes both
    exploration models and nothing else is read from the record: every
    other module, optimizer and the scheduler stay as constructed. *)
Theorem transfer_loads_only_exploration flags fs path c p :
  checkpoint flags = Some path ->
  path <> "" ->
  model flags <> "vanilla" ->
  continue_learning flags = false ->
  fs !! path = Some c ->
  c !! "actor_model_state_dict" = Some (StateDict p) ->
  init_models_and_states flags fs = Ok (constructed (Some p) (Some p)).
Proof.
  intros Hc Hp Hm Hcont Hfs Hk.
  unfold init_models_and_states, exploration_models.
  rewrite Hc, (nonempty_path _ Hp), (not_vanilla _ Hm), Hcont. simpl.
  unfold torch_load. rewrite Hfs. simpl.
  unfold getitem. rewrite Hk. reflexivity.
Qed.

Lemma transfer_loads_only_exploration_witness :
  init_models_and_states (checkpoint_flags "e3b" "model.tar" false)
    {["model.tar" := saved_record E3B (constructed None None)]}
  = Ok (constructed (Some 0%nat) (Some 0%nat)).
Proof.
  apply (transfer_loads_only_exploration (checkpoint_flags "e3b" "model.tar" false)
           {["model.tar" := saved_record E3B (constructed None None)]}
           "model.tar" (saved_record E3B (constructed None None)) 0%nat);
    (reflexivity || discriminate).
Defined.

(** Round trip: continuing from the record [RNDxE3B]'s [checkpoint] writes,
    with an exploration model present, brings back the actor model, the
    embedding, inverse-dynamics, random-target and predictor networks, the
    four saved optimizers, the scheduler and the exploration model.  The
    learner model comes back as a copy of the saved actor model, and the
    forward-dynamics model and its optimizer, which are not saved, are as
    constructed. *)
Theorem continue_round_trip flags fs path m p :
  checkpoint flags = Some path ->
  path <> "" ->
  model flags <> "vanilla" ->
  continue_learning flags = true ->
  fs !! path = Some (saved_record RNDXE3B m) ->
  actor_exploration_model m = Some p ->
  init_models_and_states flags fs =
    Ok {| actor_model := actor_model m;
          learner_model := actor_model m;
          actor_exploration_model := Some p;
          learner_exploration_model := Some p;
          state_embedding_model := state_embedding_model m;
          forward_dynamics_model := 0%nat;
          inverse_dynamics_model := inverse_dynamics_model m;
          random_target_network := random_target_network m;
          predictor_network := predictor_network m;
          learner_model_optimizer := learner_model_optimizer m;
          state_embedding_optimizer := state_embedding_optimizer m;
          inverse_dynamics_optimizer := inverse_dynamics_optimizer m;
          forward_dynamics_optimizer := 0%nat;
          predictor_optimizer := predictor_optimizer m;
          scheduler := scheduler m |}.
Proof.
  intros Hc Hp Hm Hcont Hfs Hex.
  unfold init_models_and_states, exploration_models.
  rewrite Hc, (nonempty_path _ Hp), (not_vanilla _ Hm), Hcont. simpl.
  unfold torch_load. rewrite Hfs. simpl.
  unfold saved_record. rewrite Hex. reflexivity.
Qed.

Lemma continue_round_trip_witness :
  actor_model <$>
    (match init_models_and_states (checkpoint_flags "RNDxE3B" "model.tar" true)
             {["model.tar" := saved_record RNDXE3B (constructed (Some 5%nat) (Some 5%nat))]}
     with
     | Ok m => Some m
     | Raise _ => None
     end)
  = Some 0%nat.
Proof.
  rewrite (continue_round_trip (checkpoint_flags "RNDxE3B" "model.tar" true)
             {["model.tar" := saved_record RNDXE3B (constructed (Some 5%nat) (Some 5%nat))]}
             "model.tar" (constructed (Some 5%nat) (Some 5%nat)) 5%nat);
    (reflexivity || discriminate).
Defined.



(** Whenever initialisation succeeds, the actor's and the learner's
    exploration model hold the same parameters, and there is an exploration
    model exactly when the checkpoint option is a non-empty path. *)
Theorem exploration_models_agree flags fs m :
  init_models_and_states flags fs = Ok m ->
  actor_exploration_model m = learner_exploration_model m
  /\ (is_Some (actor_exploration_model m)
      <-> exists path, checkpoint flags = Some path /\ path <> "").
Proof.
  unfold init_models_and_states.
  destruct (exploration_models flags fs) as [[ae le]|e] eqn:He; [|discriminate].
  simpl. intros Hinit.
  assert (Hm : actor_exploration_model m = ae /\ learner_exploration_model m = le).
  { destruct (checkpoint flags) as [path|].
    - destruct (continue_learning flags).
      + destruct (torch_load fs path) as [c|]; [|discriminate]. simpl in Hinit.
        apply continue_from_keeps_exploration in Hinit. exact Hinit.
      + injection Hinit as <-. split; reflexivity.
    - injection Hinit as <-. split; reflexivity. }
  destruct Hm as [-> ->]. clear Hinit.
  unfold exploration_models in He.
  destruct (checkpoint flags) as [path|].
  - destruct path as [|ch path]; simpl in He.
    + injection He as <- <-. split; [reflexivity|].
      split; [intros [? [=]] | intros (? & [= <-] & ?); done].
    + destruct (String.eqb (model flags) "vanilla"); [discriminate|].
      destruct (torch_load fs (String ch path)) as [c|]; [|discriminate].
      simpl in He.
      destruct (continue_learning flags); simpl in He.
      * destruct (getitem c "actor_exploration_model_state_dict") as [v|];
          [|discriminate]. simpl in He.
        destruct (load_state_dict v); [|discriminate]. simpl in He.
        injection He as <- <-. split; [reflexivity|].
        split; [intros _; eexists; split; [reflexivity | discriminate] | eauto].
      * destruct (getitem c "actor_model_state_dict") as [v|]; [|discriminate].
        simpl in He. destruct (load_state_dict v); [|discriminate]. simpl in He.
        injection He as <- <-. split; [reflexivity|].
        split; [intros _; eexists; split; [reflexivity | discriminate] | eauto].
  - injection He as <- <-. split; [reflexivity|].
    split; [intros [? [=]] | intros (? & [=] & ?)].
Qed.

Lemma exploration_models_agree_witness :
  actor_exploration_model (constructed (Some 0%nat) (Some 0%nat))
  = learner_exploration_model (constructed (Some 0%nat) (Some 0%nat)).
Proof.
  apply (exploration_models_agree (checkpoint_flags "e3b" "model.tar" false)
           {["model.tar" := saved_record E3B (constructed None None)]}
           (constructed (Some 0%nat) (Some 0%nat))).
  reflexivity.
Defined.

(** An empty checkpoint path gives no exploration model, but the continue
    path tests only that the option is set: with [continue_learning] the
    empty path is still opened, and initialisation fails when no such file
    exists. *)
Theorem empty_checkpoint_path flags fs :
  checkpoint flags = Some "" ->
  (continue_learning flags = false ->
   init_models_and_states flags fs = Ok (constructed None None))
  /\ (continue_learning flags = true -> fs !! "" = None ->
      init_models_and_states flags fs = Raise (FileNotFoundError "")).
Proof.
  intros Hc. unfold init_models_and_states, exploration_models. rewrite Hc. simpl.
  split.
  - intros ->. reflexivity.
  - intros -> Hfs. unfold torch_load. rewrite Hfs. reflexivity.
Qed.

Lemma empty_checkpoint_path_witness :
  init_models_and_states (checkpoint_flags "e3b" "" true) ∅
  = Raise (FileNotFoundError "").
Proof.
  apply (proj2 (empty_checkpoint_path (checkpoint_flags "e3b" "" true) ∅ eq_refl));
    reflexivity.
Defined.

End restore_properties.

(** ** More on [train] and the entry point *)

Section run_facts.
Import Init Train Main.

Lemma continue_from_raises c m e :
  continue_from c m = Raise e -> e = TypeError.
Proof.
  unfold continue_from.
  repeat
    match goal with
    | |- context [load_if_present c ?k ?x] =>
        let H := fresh "H" in
        destruct (load_if_present c k x) as [?|?] eqn:H; simpl;
        [| apply load_if_present_raises in H; congruence]
    end.
  discriminate.
Qed.


Lemma filter_silent (P : event -> bool) (g : nat -> event) (l : list nat) :
  (forall i, P (g i) = false) ->
  filter (fun e => P e = true) (g <$> l) = [].
Proof.
  intros Hg. induction l as [|i l IH]; [done|].
  rewrite fmap_cons, filter_cons. case_decide; [|exact IH].
  rewrite Hg in *. discriminate.
Qed.

Lemma wait_loop_no_save a flags obs :
  disable_checkpoint flags = true ->
  filter (fun e => is_save e = true) (wait_loop a flags obs).1 = [].
Proof.
  intros Hd. induction obs as [|k obs IH]; simpl; [done|].
  destruct (frames_seen k <? total_frames flags); [|done].
  destruct (interrupted k); [done|].
  unfold checkpoint_proc. rewrite Hd.
  destruct (save_due k); unfold seq_proc; simpl;
    destruct (wait_loop a flags obs) as [w c]; simpl in *;
    destruct c; simpl; assumption.
Qed.

End run_facts.

Section run_properties.
Import Init Train Main.

(** Initialisation raises [NotImplementedError] only for the model
    'vanilla' with a non-empty checkpoint path. *)
Theorem not_implemented_only_for_vanilla flags fs :
  init_models_and_states flags fs = Raise NotImplementedError ->
  model flags = "vanilla"
  /\ exists path, checkpoint flags = Some path /\ path <> "".
Proof.
  unfold init_models_and_states, exploration_models.
  destruct (checkpoint flags) as [path|] eqn:Hc; [|discriminate].
  destruct path as [|ch path]; simpl.
  - destruct (continue_learning flags); [|discriminate].
    destruct (torch_load fs "") as [c|] eqn:Hl; simpl.
    + intros H. apply continue_from_raises in H. discriminate.
    + unfold torch_load in Hl. destruct (fs !! ""); [discriminate Hl|].
      injection Hl as <-. discriminate.
  - destruct (String.eqb (model flags) "vanilla") eqn:Hm.
    + intros _. apply String.eqb_eq in Hm. split; [exact Hm|].
      eexists. split; [reflexivity | discriminate].
    + unfold torch_load. destruct (fs !! String ch path) as [c|]; [|discriminate].
      simpl. unfold getitem.
      destruct (continue_learning flags); simpl.
      * destruct (c !! "actor_exploration_model_state_dict") as [[]|]; simpl;
          try discriminate.
        intros H. apply continue_from_raises in H. discriminate.
      * destruct (c !! "actor_model_state_dict") as [[]|]; simpl; discriminate.
Qed.

Lemma not_implemented_only_for_vanilla_witness :
  model (checkpoint_flags "vanilla" "model.tar" false) = "vanilla".
Proof.
  apply (not_implemented_only_for_vanilla
           (checkpoint_flags "vanilla" "model.tar" false) ∅).
  reflexivity.
Defined.



(** With [disable_checkpoint] set, no run of [train] saves a checkpoint:
    not on the save interval, not at the end. *)
Theorem disabled_checkpoint_never_saves a flags fs obs :
  disable_checkpoint flags = true ->
  filter (fun e => is_save e = true) (train a flags fs obs).1 = [].
Proof.
  intros Hd.
  destruct (init_models_and_states flags fs) as [m|e] eqn:Hi.
  - rewrite (train_after_init _ _ _ _ _ Hi).
    pose proof (wait_loop_no_save a flags obs Hd) as Hw.
    destruct (wait_loop_shape a flags obs) as [_ Hc].
    destruct (wait_loop a flags obs) as [w c]. simpl in Hw, Hc.
    rewrite seq_proc_emit.
    destruct Hc as [-> | [-> | ->]]; unfold try_stmt, checkpoint_proc; rewrite ?Hd; simpl;
      rewrite 2!filter_cons_False by done;
      rewrite !filter_app, ?Hw;
      rewrite ?(filter_silent is_save StartActor), ?(filter_silent is_save StartThread),
        ?(filter_silent is_save JoinThread), ?(filter_silent is_save JoinActor),
        ?(filter_silent is_save (fun i => FreePut (Some i))),
        ?(filter_silent is_save (fun _ => FreePut None)) by done;
      reflexivity.
  - unfold train. rewrite Hi. reflexivity.
Qed.

Lemma disabled_checkpoint_never_saves_witness :
  filter (fun e => is_save e = true)
    (train E3B no_checkpoint_flags ∅
       [sample_tick 0 false true; sample_tick 6 false false]).1
  = [].
Proof.
  apply (disabled_checkpoint_never_saves E3B no_checkpoint_flags ∅
           [sample_tick 0 false true; sample_tick 6 false false]).
  reflexivity.
Defined.



End run_properties.

(** ** More on the learner threads *)

Section frame_counter_facts.
Import Train Learner LearnerTrace.

Ltac thread_step Hs Hp :=
  unfold step in Hs;
  destruct (pcs _ !! _) as [[]|] eqn:Hp; [..|done];
  repeat match type of Hs with
         | context [match ?x with _ => _ end] => destruct x eqn:?
         end;
  simplify_eq; simpl.

Ltac at_thread t' t H :=
  destruct (decide (t' = t)) as [->|?];
  [rewrite list_lookup_insert_eq in H by (eapply lookup_lt_Some; eassumption)
  |rewrite list_lookup_insert_ne in H by done].

(** A thread that has exited saw the target reached, and the counter stays
    within one step per thread of the target. *)
Lemma step_reach a flags t s s' :
  invariant a flags s ->
  0 <= unroll_length flags * batch_size flags ->
  (forall t, pcs s !! t = Some Exited -> total_frames flags <= frames s) ->
  frames s + unroll_length flags * batch_size flags * Z.of_nat (inside before_add s)
  <= Z.max (total_frames flags - 1) 0
     + unroll_length flags * batch_size flags * Z.of_nat (length (pcs s)) ->
  step a flags t s = Some s' ->
  (forall t, pcs s' !! t = Some Exited -> total_frames flags <= frames s')
  /\ frames s' + unroll_length flags * batch_size flags * Z.of_nat (inside before_add s')
     <= Z.max (total_frames flags - 1) 0
        + unroll_length flags * batch_size flags * Z.of_nat (length (pcs s')).
Proof.
  intros I Hub K1 K2 Hs. split.
  - thread_step Hs Hp; intros t' Hl; at_thread t' t Hl; simplify_eq;
      try (exact (K1 _ Hl)).
    + by apply Z.ltb_ge.
    + rewrite (inv_tmp _ _ _ I _ _ Hp). specialize (K1 _ Hl). lia.
  - thread_step Hs Hp; unfold inside in *; simpl; rewrite length_insert;
      match goal with
      | |- context [<[t:=?p']> (pcs s)] =>
          pose proof (inside_insert before_add _ t _ p' Hp) as Hc; simpl in Hc;
          pose proof (length_filter (fun q => before_add q = true) (<[t:=p']> (pcs s)))
            as Hle;
          rewrite length_insert in Hle
      end;
      try (rewrite (inv_tmp _ _ _ I _ _ Hp));
      try match goal with H : (_ <? _) = true |- _ => apply Z.ltb_lt in H end;
      nia.
Qed.

Lemma run_reach a flags sched :
  0 <= unroll_length flags * batch_size flags ->
  let s := run a flags sched (init flags) in
  (forall t, pcs s !! t = Some Exited -> total_frames flags <= frames s)
  /\ frames s + unroll_length flags * batch_size flags * Z.of_nat (inside before_add s)
     <= Z.max (total_frames flags - 1) 0
        + unroll_length flags * batch_size flags * Z.of_nat (length (pcs s)).
Proof.
  intros Hub.
  assert (Hgen : forall s,
    invariant a flags s ->
    (forall t, pcs s !! t = Some Exited -> total_frames flags <= frames s) ->
    frames s + unroll_length flags * batch_size flags * Z.of_nat (inside before_add s)
    <= Z.max (total_frames flags - 1) 0
       + unroll_length flags * batch_size flags * Z.of_nat (length (pcs s)) ->
    let s' := run a flags sched s in
    (forall t, pcs s' !! t = Some Exited -> total_frames flags <= frames s')
    /\ frames s' + unroll_length flags * batch_size flags * Z.of_nat (inside before_add s')
       <= Z.max (total_frames flags - 1) 0
          + unroll_length flags * batch_size flags * Z.of_nat (length (pcs s'))).
  { induction sched as [|t sched IH]; intros s I K1 K2; [by split|].
    simpl. destruct (step a flags t s) as [s1|] eqn:Hs; simpl.
    - destruct (step_reach a flags t s s1 I Hub K1 K2 Hs) as [K1' K2'].
      apply IH; [eapply step_invariant; eassumption | exact K1' | exact K2'].
    - apply IH; assumption. }
  apply Hgen.
  - apply invariant_init.
  - simpl. intros t Hl. apply lookup_replicate in Hl as [? _]. done.
  - unfold inside. simpl. rewrite inside_replicate by done.
    rewrite length_replicate. nia.
Qed.

End frame_counter_facts.

Section frame_counter_properties.
Import Train Learner LearnerTrace.

(** For unroll_length * batch_size >= 1: a learner thread exits only with
    the frame target reached, and the counter never passes
    max(total_frames - 1, 0) by more than one learning step per thread.
    With one learner thread and a target of at least 1, the counter at exit
    is the least multiple of unroll_length * batch_size that reaches the
    target. *)
Theorem training_reaches_target a flags sched :
  1 <= unroll_length flags * batch_size flags ->
  let per_step := unroll_length flags * batch_size flags in
  let s := run a flags sched (init flags) in
  (forall t, pcs s !! t = Some Exited -> total_frames flags <= frames s)
  /\ frames s <= Z.max (total_frames flags - 1) 0 + per_step * Z.max (num_threads flags) 0
  /\ (num_threads flags = 1 -> 1 <= total_frames flags ->
      pcs s !! 0%nat = Some Exited ->
      frames s = per_step * ((total_frames flags + per_step - 1) / per_step)).
Proof.
  intros Hub per_step s.
  destruct (run_reach a flags sched ltac:(lia)) as [K1 K2]. fold s in K1, K2.
  pose proof (run_invariant a flags sched) as I. fold s in I.
  pose proof (inv_threads _ _ _ I) as Ith.
  pose proof (inv_frames _ _ _ I) as Ifr.
  fold per_step in K2, Ifr.
  split; [exact K1|]. split.
  - rewrite Ith in K2. nia.
  - intros HT Htf Hex. specialize (K1 _ Hex).
    rewrite Ith, HT in K2. simpl in K2.
    set (n := Z.of_nat (events AddFrames (trace s))) in *.
    rewrite Ifr. f_equal.
    apply (Z.div_unique _ _ n (total_frames flags + per_step - 1 - per_step * n)); nia.
Qed.

Lemma training_reaches_target_witness :
  frames (run E3B (threaded_flags 1 7) (replicate 80 0%nat) (init (threaded_flags 1 7)))
  = 9.
Proof.
  apply (proj2 (proj2 (training_reaches_target E3B (threaded_flags 1 7)
                         (replicate 80 0%nat) ltac:(simpl; lia))));
    reflexivity || (simpl; lia).
Defined.

End frame_counter_properties.

Section logged_frames_facts.
Import Train Learner LearnerTrace.

Ltac thread_step Hs Hp :=
  unfold step in Hs;
  destruct (pcs _ !! _) as [[]|] eqn:Hp; [..|done];
  repeat match type of Hs with
         | context [match ?x with _ => _ end] => destruct x eqn:?
         end;
  simplify_eq; simpl.

Lemma logged_snoc (tr : list (nat * ev)) (t : nat) (e : ev) :
  logged (tr ++ [(t, e)]) = logged tr ++ match e with Log f => [f] | _ => [] end.
Proof. unfold logged. rewrite omap_app. f_equal. destruct e; done. Qed.

Lemma inside_none (f : pc -> bool) (l : list pc) :
  (forall i p, l !! i = Some p -> f p = false) ->
  length (filter (fun q => f q = true) l) = 0%nat.
Proof.
  induction l as [|q l IH]; intros H; [done|].
  rewrite filter_cons. case_decide as Hq.
  - rewrite (H 0%nat q eq_refl) in Hq. discriminate.
  - apply IH. intros i p Hi. exact (H (S i) p Hi).
Qed.

(** While a thread is about to log, no thread stands between logging and
    adding. *)
Lemma nobody_updating a flags s t :
  invariant a flags s ->
  pcs s !! t = Some Logging ->
  inside in_update s = 0%nat.
Proof.
  intros I Ht. apply inside_none. intros i p Hi.
  destruct (in_update p) eqn:Hu; [|reflexivity]. exfalso.
  assert (Hin : in_log p = true) by (destruct p; done).
  pose proof (inv_log_holder _ _ _ I _ _ Hi Hin) as H1.
  pose proof (inv_log_holder _ _ _ I _ _ Ht eq_refl) as H2.
  assert (i = t) by congruence. subst i. rewrite Ht in Hi.
  injection Hi as <-. discriminate.
Qed.

Lemma step_logged a flags t s s' :
  invariant a flags s ->
  logged (trace s)
  = (fun k => unroll_length flags * batch_size flags * Z.of_nat k)
      <$> seq 0 (events AddFrames (trace s) + inside in_update s) ->
  (inside in_update s <= 1)%nat ->
  step a flags t s = Some s' ->
  logged (trace s')
  = (fun k => unroll_length flags * batch_size flags * Z.of_nat k)
      <$> seq 0 (events AddFrames (trace s') + inside in_update s')
  /\ (inside in_update s' <= 1)%nat.
Proof.
  intros I HL H1 Hs.
  pose proof (fun Ht => nobody_updating a flags s t I Ht) as Hnone.
  pose proof (inv_frames _ _ _ I) as Ifr.
  thread_step Hs Hp; rewrite ?logged_snoc, ?events_snoc; unfold inside in *; simpl;
    match goal with
    | |- context [<[t:=?p']> (pcs s)] =>
        pose proof (inside_insert in_update _ t _ p' Hp) as Hc; simpl in Hc
    end;
    rewrite ?app_nil_r, ?Nat.add_0_r in *.
  all: try (split; [rewrite HL; f_equal; f_equal; lia | lia]).
  specialize (Hnone eq_refl). rewrite Hnone in *.
  rewrite Nat.add_0_r in HL. split; [|lia].
  rewrite Hc, Nat.add_1_r, seq_S, fmap_app, <- HL. simpl. rewrite Ifr. reflexivity.
Qed.

Lemma run_logged a flags sched :
  let s := run a flags sched (init flags) in
  logged (trace s)
  = (fun k => unroll_length flags * batch_size flags * Z.of_nat k)
      <$> seq 0 (events AddFrames (trace s) + inside in_update s)
  /\ (inside in_update s <= 1)%nat.
Proof.
  assert (Hgen : forall s,
    invariant a flags s ->
    logged (trace s)
    = (fun k => unroll_length flags * batch_size flags * Z.of_nat k)
        <$> seq 0 (events AddFrames (trace s) + inside in_update s) ->
    (inside in_update s <= 1)%nat ->
    let s' := run a flags sched s in
    logged (trace s')
    = (fun k => unroll_length flags * batch_size flags * Z.of_nat k)
        <$> seq 0 (events AddFrames (trace s') + inside in_update s')
    /\ (inside in_update s' <= 1)%nat).
  { induction sched as [|t sched IH]; intros s I HL H1; [by split|].
    simpl. destruct (step a flags t s) as [s1|] eqn:Hs; simpl.
    - destruct (step_logged a flags t s s1 I HL H1 Hs) as [HL' H1'].
      apply IH; [eapply step_invariant; eassumption | exact HL' | exact H1'].
    - apply IH; assumption. }
  apply Hgen.
  - apply invariant_init.
  - unfold inside. simpl. rewrite inside_replicate by done. reflexivity.
  - unfold inside. simpl. rewrite inside_replicate by done. lia.
Qed.

End logged_frames_facts.

Section logged_frames_properties.
Import Train Learner LearnerTrace.

(** The frame counts the learner threads log are, in the order logged,
    0, unroll_length * batch_size, twice that, and so on: every learning
    step logs the counter before its own increment, and thanks to the lock
    no two steps log the same count.  There is one log entry for every
    completed increment, and at most one more for a step that has logged and
    not yet added. *)
Theorem logged_frames_count_up a flags sched :
  let s := run a flags sched (init flags) in
  exists n,
    logged (trace s)
    = (fun k => unroll_length flags * batch_size flags * Z.of_nat k) <$> seq 0 n
    /\ (events AddFrames (trace s) <= n)%nat
    /\ (n <= S (events AddFrames (trace s)))%nat.
Proof.
  intros s. destruct (run_logged a flags sched) as [HL H1]. fold s in HL, H1.
  exists (events AddFrames (trace s) + inside in_update s)%nat.
  split; [exact HL|]. lia.
Qed.

End logged_frames_properties.
